(** * Resumable bulk fetchers of the NOAA notebooks

    A shallow embedding of the two download scripts of the repository,

    - [DataAcqusitionLab/make_requests.py] (module [Locations]): pages through
      the locations endpoint by record offset, with a retrying executor;
    - [NOAAMonthlySummaries/data/monthly_summaries/fetch_monthly_data.py]
      (module [Monthly]): walks a span of years in fixed windows;

    followed by the properties of their chunk planning, retry policy, resume
    detection and final ledger.

    The network, the clock and the data directory are the only effects of the
    scripts.  They are threaded through an explicit [world]: the server and
    the disk are oracles (what the k-th request and the k-th write will meet),
    and the world logs the requests issued and the pauses taken. *)

From Stdlib Require Import ZArith Lia.
From stdpp Require Import base numbers strings list list_numbers gmap pretty.

Local Open Scope Z_scope.
Local Set Warnings "-register-all".

(** ** Python values and the operations the scripts apply to them *)

Module Py.

(** What [json.loads] / [response.json()] can return.  [JNull] is Python's
    [None]; number literals are kept as integers (the scripts only test a
    number for truth and for being a number). *)
Inductive json : Type :=
| JNull
| JBool (b : bool)
| JNum (n : Z)
| JStr (s : string)
| JArr (items : list json)
| JObj (fields : list (string * json)).

(** The exceptions that the operations below can raise. *)
Inductive exn : Type :=
| TypeError (msg : string)
| KeyError (key : string)
| AttributeError (msg : string).

(** [bool(v)] *)
Definition truthy (v : json) : bool :=
  match v with
  | JNull => false
  | JBool b => b
  | JNum n => negb (n =? 0)
  | JStr s => negb (String.eqb s "")
  | JArr items => match items with [] => false | _ => true end
  | JObj fields => match fields with [] => false | _ => true end
  end.

Fixpoint dict_lookup (k : string) (fields : list (string * json)) : option json :=
  match fields with
  | [] => None
  | (k', v) :: rest => if String.eqb k' k then Some v else dict_lookup k rest
  end.

(** [d[k] = x] on a dict: replaces in place, or appends a new key. *)
Fixpoint dict_set (k : string) (x : json) (fields : list (string * json))
  : list (string * json) :=
  match fields with
  | [] => [(k, x)]
  | (k', v) :: rest =>
      if String.eqb k' k then (k', x) :: rest else (k', v) :: dict_set k x rest
  end.

Definition is_str (k : string) (v : json) : bool :=
  match v with JStr s => String.eqb s k | _ => false end.

Definition is_substring (k s : string) : bool :=
  match String.index 0 k s with Some _ => true | None => false end.

(** [k in v] for a string [k] *)
Definition contains (k : string) (v : json) : exn + bool :=
  match v with
  | JObj fields => inr (bool_decide (is_Some (dict_lookup k fields)))
  | JArr items => inr (existsb (is_str k) items)
  | JStr s => inr (is_substring k s)
  | JNull => inl (TypeError "argument of type 'NoneType' is not iterable")
  | JBool _ => inl (TypeError "argument of type 'bool' is not iterable")
  | JNum _ => inl (TypeError "argument of type 'int' is not iterable")
  end.

(** [v[k]] for a string [k] *)
Definition getitem (v : json) (k : string) : exn + json :=
  match v with
  | JObj fields =>
      match dict_lookup k fields with
      | Some x => inr x
      | None => inl (KeyError k)
      end
  | JArr _ => inl (TypeError "list indices must be integers or slices, not str")
  | JStr _ => inl (TypeError "string indices must be integers, not 'str'")
  | _ => inl (TypeError "object is not subscriptable")
  end.

(** [len(v)] *)
Definition len (v : json) : exn + Z :=
  match v with
  | JObj fields => inr (Z.of_nat (length fields))
  | JArr items => inr (Z.of_nat (length items))
  | JStr s => inr (Z.of_nat (String.length s))
  | _ => inl (TypeError "object has no len()")
  end.

(** [v.get(k, default)]: only dicts have the method. *)
Definition get (v : json) (k : string) (dflt : json) : exn + json :=
  match v with
  | JObj fields => inr (default dflt (dict_lookup k fields))
  | _ => inl (AttributeError "object has no attribute 'get'")
  end.

(** [for item in v]: the items the loop visits. *)
Definition iter (v : json) : exn + list json :=
  match v with
  | JArr items => inr items
  | JObj fields => inr ((λ kv, JStr (fst kv)) <$> fields)
  | JStr s => inr ((λ c, JStr (String c EmptyString)) <$> String.list_ascii_of_string s)
  | _ => inl (TypeError "object is not iterable")
  end.

(** [v[k] = x] *)
Definition setitem (v : json) (k : string) (x : json) : exn + json :=
  match v with
  | JObj fields => inr (JObj (dict_set k x fields))
  | _ => inl (TypeError "object does not support item assignment")
  end.

(** [e or default] for an optional string *)
Definition str_or (e : option string) (default : string) : string :=
  match e with
  | Some s => if String.eqb s "" then default else s
  | None => default
  end.

(** [range(n)] *)
Definition range (n : Z) : list Z := seqZ 0 n.

(** Sequencing of operations that may raise. *)
Global Instance raising_ret : MRet (sum exn) := λ A a, inr a.
Global Instance raising_bind : MBind (sum exn) := λ A B k r,
  match r with
  | inl e => inl e
  | inr a => k a
  end.

End Py.

(** ** The world of a run, and computations over it *)

Module Io.
Import Py.

(** A file of the data directory after a write: whole, or cut short by a
    write that failed after [open] had created it. *)
Inductive file : Type :=
| Written (payload : json)
| Partial.

(** What the disk does with one [open(..., 'w')] + [json.dump]. *)
Inductive write_outcome : Type :=
| WriteOk
| WriteFails (leaves_file : bool).

Section World.
Context {Req Resp : Type}.

Record world : Type := World {
  net : nat → Req → Resp;      (* answer of the server to the k-th request *)
  requests : list Req;         (* requests issued so far, oldest first *)
  slept : list Z;              (* [time.sleep] calls so far, oldest first *)
  disk : nat → write_outcome;  (* what the k-th write will meet *)
  writes : list string;        (* files opened for writing so far *)
  files : gmap string file;    (* entries of the data directory, by name *)
}.

(** Outcome of running a piece of the script: a value, an exception that
    nothing caught, or a recursion that did not fit the allowed depth. *)
Inductive outcome (A : Type) : Type :=
| Ret (a : A) (w : world)
| Raise (e : exn) (w : world)
| OutOfFuel.
Global Arguments Ret {A} a w.
Global Arguments Raise {A} e w.
Global Arguments OutOfFuel {A}.

Definition M (A : Type) : Type := world → outcome A.

Definition ret {A} (a : A) : M A := λ w, Ret a w.

Definition bind {A B} (k : A → M B) (c : M A) : M B := λ w,
  match c w with
  | Ret a w' => k a w'
  | Raise e w' => Raise e w'
  | OutOfFuel => OutOfFuel
  end.

(** A pure operation that may raise. *)
Definition lift {A} (r : exn + A) : M A := λ w,
  match r with
  | inl e => Raise e w
  | inr a => Ret a w
  end.

(** One round trip to the server. *)
Definition send (rq : Req) : M Resp := λ w,
  Ret (net w (length (requests w)) rq)
      {| net := net w; requests := requests w ++ [rq]; slept := slept w;
         disk := disk w; writes := writes w; files := files w |}.

(** [time.sleep(seconds)] *)
Definition sleep (seconds : Z) : M unit := λ w,
  Ret tt
      {| net := net w; requests := requests w; slept := slept w ++ [seconds];
         disk := disk w; writes := writes w; files := files w |}.

(** [os.path.exists] on an entry of the data directory. *)
Definition exists_file (name : string) : M bool := λ w,
  Ret (bool_decide (is_Some (files w !! name))) w.

(** [os.listdir] of the data directory (in no particular order). *)
Definition listdir : M (list string) := λ w,
  Ret (elements (dom (files w))) w.

(** [with open(name, 'w') as f: json.dump(data, f, ...)], reporting
    whether it went through instead of raising. *)
Definition write_file (name : string) (data : json) : M bool := λ w,
  let w' fs :=
    {| net := net w; requests := requests w; slept := slept w;
       disk := disk w; writes := writes w ++ [name]; files := fs |} in
  match disk w (length (writes w)) with
  | WriteOk => Ret true (w' (<[name := Written data]> (files w)))
  | WriteFails true => Ret false (w' (<[name := Partial]> (files w)))
  | WriteFails false => Ret false (w' (files w))
  end.

(** [for x in l: s = body x s] *)
Fixpoint for_each {A S} (l : list A) (body : A → S → M S) (s : S) : M S :=
  match l with
  | [] => ret s
  | x :: l' => bind (for_each l' body) (body x s)
  end.

End World.
Global Arguments world : clear implicits.
Global Arguments outcome : clear implicits.
Global Arguments M : clear implicits.

Global Instance M_ret {Req Resp} : MRet (M Req Resp) := @ret Req Resp.
Global Instance M_bind {Req Resp} : MBind (M Req Resp) := @bind Req Resp.

End Io.

(** ** DataAcqusitionLab/make_requests.py *)

Module Locations.
Import Py Io.

Definition BASE_URL : string := "https://www.ncei.noaa.gov/cdo-web/api/v2/locations".
Definition LIMIT : Z := 1000.
Definition TOTAL_RECORDS : Z := 38859.
Definition DELAY_BETWEEN_REQUESTS : Z := 2.
Definition MAX_RETRIES : Z := 3.

(** The query of [f"{BASE_URL}?limit={limit}&offset={offset}"]. *)
Record request : Type := Request { req_limit : Z; req_offset : Z }.

Global Instance request_eq_dec : EqDecision request.
Proof. solve_decision. Defined.

(** What [json.loads(response.read().decode())] makes of a 2xx body. *)
Inductive body : Type :=
| Decoded (data : json)
| Undecodable (str_e : string).

(** What [urllib.request.urlopen] does: a 2xx response, an [HTTPError]
    (any other final status), or any other exception (URLError, timeout). *)
Inductive response : Type :=
| Ok (b : body)
| HTTPError (code : Z) (reason : string)
| OtherError (str_e : string).

Abbreviation world := (Io.world request response).
Abbreviation M := (Io.M request response).

(** [make_api_request(offset, limit, retry_count=0)].  [depth] bounds the
    activations of the function on the stack, this one included. *)
Fixpoint make_api_request_rec (depth : nat) (offset limit retry_count : Z)
  : M (json * option string) :=
  match depth with
  | O => λ _, OutOfFuel
  | S depth' =>
      resp ← send {| req_limit := limit; req_offset := offset |};
      match resp with
      | Ok (Decoded data) => mret (data, None)
      | HTTPError code reason =>
          let error_msg := "HTTP Error " +:+ pretty code +:+ ": " +:+ reason in
          if code =? 503 then
            if retry_count <? MAX_RETRIES then
              let wait_time := (retry_count + 1) * 5 in
              sleep wait_time;;
              make_api_request_rec depth' offset limit (retry_count + 1)
            else
              mret (JNull, Some ("Max retries exceeded: " +:+ error_msg))
          else if code =? 429 then
            let wait_time := 30 in
            sleep wait_time;;
            if retry_count <? MAX_RETRIES then
              make_api_request_rec depth' offset limit (retry_count + 1)
            else
              mret (JNull, Some error_msg)
          else
            mret (JNull, Some error_msg)
      | Ok (Undecodable str_e) | OtherError str_e =>
          let error_msg := "Network error: " +:+ str_e in
          if retry_count <? MAX_RETRIES then
            let wait_time := 5 in
            sleep wait_time;;
            make_api_request_rec depth' offset limit (retry_count + 1)
          else
            mret (JNull, Some error_msg)
      end
  end.

(** The script's call: one activation plus at most [MAX_RETRIES] nested. *)
Definition call_depth : nat := S (Z.to_nat MAX_RETRIES).

Definition make_api_request (offset limit : Z) (retry_count : Z)
  : M (json * option string) :=
  make_api_request_rec call_depth offset limit retry_count.

Definition file_name (file_index : Z) : string :=
  "locations_" +:+ pretty file_index +:+ ".json".

(** [save_to_file(data, file_index)].  The [os.makedirs(..., exist_ok=True)]
    before the [try] has no counterpart here: where it raises, the exception
    leaves [main], so what is stated below of a turn or of a run that writes
    is stated of one that returns. *)
Definition save_to_file (data : json) (file_index : Z) : M bool :=
  write_file (file_name file_index) data.

(** [check_existing_files()]: the probe runs over the 39 expected indices.
    A missing data directory is a directory without entries: the early
    [return []] is what the loop finds there. *)
Definition check_existing_files : M (list Z) :=
  for_each (range 39)
    (λ i existing_files,
       present ← exists_file (file_name i);
       mret (if present : bool then existing_files ++ [i] else existing_files))
    [].

(** Planning, as [main] computes it. *)
Definition num_requests_of (total_records limit : Z) : Z :=
  (total_records + limit - 1) / limit.

Definition chunk_offset (limit i : Z) : Z := i * limit + 1.

(** Last record of chunk [i], as the progress line prints it. *)
Definition chunk_last (total_records limit i : Z) : Z :=
  Z.min (chunk_offset limit i + limit - 1) total_records.

Definition report : Type := Z * list (Z * string).

(** The body of [main]'s loop for index [i]. *)
Definition main_body (num_requests : Z) (existing_files : list Z)
    (i : Z) (st : report) : M report :=
  let '(successful_requests, failed_requests) := st in
  if bool_decide (i ∈ existing_files) then
    mret (successful_requests + 1, failed_requests)
  else
    let offset := chunk_offset LIMIT i in
    '(data, error) ← make_api_request offset LIMIT 0;
    has_results ← (if truthy data then lift (contains "results" data)
                    else mret false);
    st' ← (if has_results : bool then
             saved ← save_to_file data i;
             if saved : bool then
               results ← lift (getitem data "results");
               records_count ← lift (len results);
               mret (successful_requests + 1, failed_requests)
             else
               mret (successful_requests,
                     failed_requests ++ [(i, "File save error")])
           else
             mret (successful_requests,
                   failed_requests ++ [(i, str_or error "Unknown error")]));
    (if i <? num_requests - 1 then sleep DELAY_BETWEEN_REQUESTS else mret tt);;
    mret st'.

Definition main_loop (num_requests : Z) (existing_files : list Z) : M report :=
  for_each (range num_requests) (main_body num_requests existing_files) (0, []).

(** [main()], returning the ledger it prints. *)
Definition main : M report :=
  existing_files ← check_existing_files;
  let num_requests := num_requests_of TOTAL_RECORDS LIMIT in
  r ← main_loop num_requests existing_files;
  final_files ← check_existing_files;
  mret r.

End Locations.

(** ** NOAAMonthlySummaries/data/monthly_summaries/fetch_monthly_data.py *)

Module Monthly.
Import Py Io.

Definition DATASET_ID : string := "GSOM".
Definition LOCATION_ID : string := "FIPS:10003".
Definition DATATYPE_ID : string := "TAVG".
Definition LIMIT : Z := 1000.
Definition OFFSET : Z := 1.
Definition START_YEAR : Z := 1938.
Definition END_YEAR : Z := 2018.
Definition CHUNK_SIZE : Z := 10.

(** An entry of the list [create_date_ranges] builds. *)
Record range_info : Type := RangeInfo {
  start_year : Z;
  end_year : Z;
  start_date : string;
  end_date : string;
  filename : string;
}.

(** The [while current_year <= END_YEAR] loop; [fuel] bounds its turns. *)
Fixpoint create_date_ranges_loop (fuel : nat) (END_YEAR CHUNK_SIZE : Z)
    (current_year : Z) (ranges : list range_info) : option (list range_info) :=
  if current_year <=? END_YEAR then
    match fuel with
    | O => None
    | S fuel' =>
        let end_year := Z.min (current_year + CHUNK_SIZE - 1) END_YEAR in
        let start_date := pretty current_year +:+ "-01-01" in
        let end_date := pretty end_year +:+ "-12-31" in
        create_date_ranges_loop fuel' END_YEAR CHUNK_SIZE
          (current_year + CHUNK_SIZE)
          (ranges ++ [ {| start_year := current_year;
                          end_year := end_year;
                          start_date := start_date;
                          end_date := end_date;
                          filename := "FIPS10003_avg_" +:+ pretty current_year
                                      +:+ "_to_" +:+ pretty end_year +:+ ".json" |} ])
    end
  else Some ranges.

(** [create_date_ranges()] for given bounds; one turn per year of the span
    is allowed, which is enough whenever the window is at least a year. *)
Definition create_date_ranges_of (START_YEAR END_YEAR CHUNK_SIZE : Z)
  : option (list range_info) :=
  create_date_ranges_loop (Z.to_nat (END_YEAR - START_YEAR + 1))
    END_YEAR CHUNK_SIZE START_YEAR [].

Definition create_date_ranges : option (list range_info) :=
  create_date_ranges_of START_YEAR END_YEAR CHUNK_SIZE.

(** The query parameters that vary between requests. *)
Record request : Type := Request { startdate : string; enddate : string }.

Global Instance request_eq_dec : EqDecision request.
Proof. solve_decision. Defined.

(** [response.content] and what [response.json()] makes of it; a decoding
    failure is a [requests] exception or a plain [json.JSONDecodeError],
    depending on the library version. *)
Inductive content : Type :=
| Empty
| NotJson (via_requests : bool) (str_e : string)
| Json (data : json).

(** What [requests.get] does: raise a [RequestException], or return a
    response, whose [raise_for_status] message is carried along. *)
Inductive response : Type :=
| RequestException (str_e : string)
| Response (status_code : Z) (str_http_error : string) (c : content).

Abbreviation world := (Io.world request response).
Abbreviation M := (Io.M request response).

(** [raise_for_status] raises for 4xx and 5xx. *)
Definition is_error_status (status_code : Z) : bool :=
  (400 <=? status_code) && (status_code <? 600).

(** The projection of one record of [results]. *)
Definition adjust_item (item : json) : exn + json :=
  date ← get item "date" JNull;
  datatype ← get item "datatype" JNull;
  station ← get item "station" JNull;
  attributes ← get item "attributes" JNull;
  value ← get item "value" JNull;
  mret (JObj [("date", date); ("datatype", datatype); ("station", station);
              ("attributes", attributes); ("value", value)]).

Fixpoint adjust_items (items : list json) : exn + list json :=
  match items with
  | [] => mret []
  | item :: rest =>
      adjusted_item ← adjust_item item;
      adjusted ← adjust_items rest;
      mret (adjusted_item :: adjusted)
  end.

(** [make_api_request(start_date, end_date)] *)
Definition make_api_request (start_date end_date : string)
  : M (json * option string) :=
  resp ← send {| startdate := start_date; enddate := end_date |};
  match resp with
  | RequestException str_e => mret (JNull, Some ("Request error: " +:+ str_e))
  | Response status_code str_http_error c =>
      if is_error_status status_code then
        mret (JNull, Some ("Request error: " +:+ str_http_error))
      else
        match c with
        | Empty => mret (JNull, Some "Empty response")
        | NotJson true str_e => mret (JNull, Some ("Request error: " +:+ str_e))
        | NotJson false str_e => mret (JNull, Some ("JSON decode error: " +:+ str_e))
        | Json data =>
            results ← lift (get data "results" (JArr []));
            items ← lift (iter results);
            adjusted_results ← lift (adjust_items items);
            data' ← lift (setitem data "results" (JArr adjusted_results));
            mret (data', None)
        end
  end.

(** The record count [save_data] computes for its progress line. *)
Definition record_count (data : json) : exn + Z :=
  has_results ← (if truthy data then contains "results" data else mret false);
  if has_results : bool then
    results ← get data "results" (JArr []);
    len results
  else mret 0.

(** [save_data(data, filename)]: everything after [open] sits in the
    [try], so a failing count also answers [False]. *)
Definition save_data (data : json) (filename : string) : M bool :=
  written ← write_file filename data;
  if written : bool then
    match record_count data with
    | inl _ => mret false
    | inr _ => mret true
    end
  else mret false.

Definition startswith (s p : string) : bool := String.prefix p s.
Definition endswith (s p : string) : bool :=
  String.prefix (String.rev p) (String.rev s).

(** [check_existing_files()] *)
Definition check_existing_files : M (list string) :=
  names ← listdir;
  mret (filter (λ name, startswith name "FIPS10003_avg_" && endswith name ".json")
          names).

Definition report : Type := Z * list string.

(** The body of [main]'s loop for the [i]-th entry (counted from 1). *)
Definition main_body (n_ranges : Z) (existing_files : list string)
    (entry : Z * range_info) (st : report) : M report :=
  let '(i, range_info) := entry in
  let '(successful, failed) := st in
  let filename := filename range_info in
  if bool_decide (filename ∈ existing_files) then
    mret (successful + 1, failed)
  else
    '(data, error) ← make_api_request (start_date range_info) (end_date range_info);
    st' ← (if truthy data then
             saved ← save_data data filename;
             mret (if saved : bool then (successful + 1, failed)
                   else (successful, failed ++ [filename]))
           else
             mret (successful, failed ++ [filename]));
    (if i <? n_ranges then sleep 2 else mret tt);;
    mret st'.

(** [enumerate(l, 1)] *)
Definition enumerate1 {A} (l : list A) : list (Z * A) :=
  zip (seqZ 1 (Z.of_nat (length l))) l.

Definition main_loop (date_ranges : list range_info) (existing_files : list string)
  : M report :=
  for_each (enumerate1 date_ranges)
    (main_body (Z.of_nat (length date_ranges)) existing_files) (0, []).

(** [main()], returning the ledger it prints.  [DATA_DIR] is the current
    directory, so its [os.makedirs(..., exist_ok=True)] does nothing. *)
Definition main : M report :=
  existing_files ← check_existing_files;
  match create_date_ranges with
  | None => λ _, OutOfFuel
  | Some date_ranges =>
      r ← main_loop date_ranges existing_files;
      final_files ← check_existing_files;
      mret r
  end.

End Monthly.

(** ** What a piece of a run leaves behind *)

Module Observed.
Import Py Io.

Section Generic.
Context {Req Resp : Type}.
Implicit Types w : world Req Resp.

(** The world in which a computation stopped, whether it returned or
    raised. *)
Definition final_world {A} (o : outcome Req Resp A) : option (world Req Resp) :=
  match o with
  | Ret _ w | Raise _ w => Some w
  | OutOfFuel => None
  end.

(** The value a computation returned, if it did. *)
Definition returned {A} (o : outcome Req Resp A) : option A :=
  match o with
  | Ret a _ => Some a
  | Raise _ _ | OutOfFuel => None
  end.

(** Nothing but the clock and the request log moved. *)
Definition same_store w w' : Prop :=
  net w' = net w ∧ disk w' = disk w ∧ writes w' = writes w ∧ files w' = files w.

(** The requests issued between [w] and a later world [w']. *)
Definition new_requests w w' : list Req :=
  drop (length (requests w)) (requests w').

(** The file [name] is in the directory (whatever its content). *)
Definition present w (name : string) : Prop := is_Some (files w !! name).

Global Instance present_dec w name : Decision (present w name).
Proof. unfold present. apply _. Defined.

(** The file [name] holds a payload written in full. *)
Definition persisted w (name : string) : Prop :=
  ∃ data, files w !! name = Some (Written data).

(** The executor ran for [rq] between [w] and [w']: the request went out
    at least once, and nothing else did. *)
Definition fetched (rq : Req) w w' : Prop :=
  ∃ k, (1 ≤ k)%nat ∧ requests w' = requests w ++ replicate k rq.

(** How the turn of a chunk that is not skipped can end, for the chunk
    stored under [name] and fetched by [rq], from the ledger
    [(successful, failed)]: the payload is saved and counted, or an entry
    owned by the chunk joins the failed list (leaving at most a partial
    file behind), or an exception escapes. *)
Inductive turn {F : Type} (owner : F → string) (rq : Req) (name : string)
    (successful : Z) (failed : list F) w : outcome Req Resp (Z * list F) → Prop :=
| turn_saved w' data :
    fetched rq w w' →
    files w' = <[name := Written data]> (files w) →
    turn owner rq name successful failed w (Ret (successful + 1, failed) w')
| turn_failed w' entry :
    owner entry = name →
    fetched rq w w' →
    files w' = files w ∨ files w' = <[name := Partial]> (files w) →
    turn owner rq name successful failed w (Ret (successful, failed ++ [entry]) w')
| turn_raised e w' :
    fetched rq w w' →
    turn owner rq name successful failed w (Raise e w').

Section Loop.
Context {A F : Type}.
Variable key : A → string.      (* file name of a chunk *)
Variable req : A → Req.         (* request of a chunk *)
Variable owner : F → string.    (* file name a failed entry refers to *)
Variable skip : A → Prop.       (* found on disk at the start *)

(** Only chunks of [l] that were not skipped were requested. *)
Definition only_missing_requested (l : list A) w w' : Prop :=
  ∃ new, requests w' = requests w ++ new
         ∧ ∀ r, r ∈ new → ∃ x, x ∈ l ∧ ¬ skip x ∧ r = req x.

(** The ledger, the directory and the log after the chunks of [l]:
    the new failed entries belong to distinct chunks that were not
    skipped and have no complete file; every other chunk was skipped
    or has one; files of other names are as before; the requests
    issued are those of the chunks not skipped. *)
Definition ledger_after (l : list A) (st : Z * list F) w
    (st' : Z * list F) w' : Prop :=
  ∃ fnew,
    st'.2 = st.2 ++ fnew
    ∧ NoDup (owner <$> fnew)
    ∧ st'.1 + Z.of_nat (length fnew) = st.1 + Z.of_nat (length l)
    ∧ (∀ e, e ∈ fnew →
         ∃ x, x ∈ l ∧ ¬ skip x ∧ owner e = key x
              ∧ (files w' !! key x = files w !! key x
                 ∨ files w' !! key x = Some Partial))
    ∧ (∀ x, x ∈ l → key x ∉ owner <$> fnew → skip x ∨ persisted w' (key x))
    ∧ (∀ name, (∀ x, x ∈ l → ¬ skip x → name ≠ key x) →
         files w' !! name = files w !! name)
    ∧ ∃ new, requests w' = requests w ++ new
             ∧ ∀ r, r ∈ new ↔ ∃ x, x ∈ l ∧ ¬ skip x ∧ r = req x.
End Loop.

(** The start of a first run: nothing requested, nothing on disk. *)
Definition fresh (server : nat → Req → Resp) (disk : nat → write_outcome)
  : world Req Resp :=
  {| net := server; requests := []; slept := []; disk := disk;
     writes := []; files := ∅ |}.
End Generic.

(** The indices [check_existing_files] of make_requests.py finds on disk. *)
Definition found_on_disk (w : Locations.world) : list Z :=
  filter (λ i, is_Some (files w !! Locations.file_name i)) (range 39).

(** The chunks make_requests.py plans. *)
Definition planned : list Z :=
  range (Locations.num_requests_of Locations.TOTAL_RECORDS Locations.LIMIT).

(** The request that fetches chunk [i] in make_requests.py. *)
Definition chunk_request (i : Z) : Locations.request :=
  Locations.Request Locations.LIMIT (Locations.chunk_offset Locations.LIMIT i).

(** The file that a failed entry of make_requests.py refers to. *)
Definition entry_file (entry : Z * string) : string :=
  Locations.file_name entry.1.

(** A response after which the executor of make_requests.py tries again,
    budget permitting. *)
Definition transient (resp : Locations.response) : bool :=
  match resp with
  | Locations.Ok (Locations.Decoded _) => false
  | Locations.Ok (Locations.Undecodable _) => true
  | Locations.HTTPError code _ => (code =? 503) || (code =? 429)
  | Locations.OtherError _ => true
  end.

(** The error that executor hands back when [resp] met its last attempt. *)
Definition last_error (resp : Locations.response) : string :=
  match resp with
  | Locations.Ok (Locations.Decoded _) => ""
  | Locations.Ok (Locations.Undecodable str_e)
  | Locations.OtherError str_e => "Network error: " +:+ str_e
  | Locations.HTTPError code reason =>
      let error_msg := "HTTP Error " +:+ pretty code +:+ ": " +:+ reason in
      if code =? 503 then "Max retries exceeded: " +:+ error_msg else error_msg
  end.

(** The window that opens at year [current_year]. *)
Definition year_window (END_YEAR CHUNK_SIZE current_year : Z) : Monthly.range_info :=
  let end_year := Z.min (current_year + CHUNK_SIZE - 1) END_YEAR in
  {| Monthly.start_year := current_year;
     Monthly.end_year := end_year;
     Monthly.start_date := pretty current_year +:+ "-01-01";
     Monthly.end_date := pretty end_year +:+ "-12-31";
     Monthly.filename := "FIPS10003_avg_" +:+ pretty current_year
                         +:+ "_to_" +:+ pretty end_year +:+ ".json" |}.

(** [n] consecutive windows from [current_year] on. *)
Definition year_windows (END_YEAR CHUNK_SIZE current_year n : Z)
  : list Monthly.range_info :=
  (λ i, year_window END_YEAR CHUNK_SIZE (current_year + i * CHUNK_SIZE))
    <$> seqZ 0 n.

(** The file a turn of fetch_monthly_data.py is about, and its request. *)
Definition monthly_key (entry : Z * Monthly.range_info) : string :=
  Monthly.filename entry.2.

Definition monthly_request (entry : Z * Monthly.range_info) : Monthly.request :=
  Monthly.Request (Monthly.start_date entry.2) (Monthly.end_date entry.2).

(** The names [check_existing_files] of fetch_monthly_data.py finds. *)
Definition monthly_pattern (name : string) : bool :=
  Monthly.startswith name "FIPS10003_avg_" && Monthly.endswith name ".json".

Definition monthly_found (w : Monthly.world) : list string :=
  filter (λ name, monthly_pattern name) (elements (dom (files w))).

(** The windows fetch_monthly_data.py plans. *)
Definition monthly_planned : list Monthly.range_info :=
  default [] Monthly.create_date_ranges.

(** The names the planned windows are stored under, and the windows as
    the loop numbers them. *)
Definition monthly_planned_names : list string :=
  Monthly.filename <$> monthly_planned.

Definition monthly_entries : list (Z * Monthly.range_info) :=
  Monthly.enumerate1 monthly_planned.

(** The failures of the monthly fetcher that a retry could cure: no
    answer, or a 503 or 429 status. *)
Definition monthly_transient (resp : Monthly.response) : bool :=
  match resp with
  | Monthly.RequestException _ => true
  | Monthly.Response status_code _ _ => (status_code =? 503) || (status_code =? 429)
  end.

(** [str(e)] of the exception such a failure becomes. *)
Definition monthly_str_e (resp : Monthly.response) : string :=
  match resp with
  | Monthly.RequestException str_e => str_e
  | Monthly.Response _ str_http_error _ => str_http_error
  end.

End Observed.

(** ** Schedules and shapes read off the scripts *)

Module Traces.
Import Py Io.
Import Stdlib.Strings.Ascii.

(** The pause make_requests.py takes before it tries again, after [resp]
    met a call entered with [retry_count]. *)
Definition retry_wait (retry_count : Z) (resp : Locations.response) : Z :=
  match resp with
  | Locations.HTTPError code _ =>
      if code =? 503 then (retry_count + 1) * 5
      else if code =? 429 then 30
      else 0
  | _ => 5
  end.

(** The pauses of [j] attempts in a row, the first entered with
    [retry_count], when the log of requests held [sent] entries. *)
Definition retry_waits (w : Locations.world) (rq : Locations.request)
    (retry_count : Z) (j : nat) : list Z :=
  (λ k : nat, retry_wait (retry_count + Z.of_nat k)
                (net w (length (requests w) + k)%nat rq)) <$> seq 0 j.

(** A 429 answer. *)
Definition rate_limited (resp : Locations.response) : bool :=
  match resp with
  | Locations.HTTPError code _ => negb (code =? 503) && (code =? 429)
  | _ => false
  end.

(** A JSON object. *)
Definition is_object (v : json) : bool :=
  match v with JObj _ => true | _ => false end.

(** The five fields fetch_monthly_data.py keeps of a record. *)
Definition kept_fields : list string :=
  ["date"; "datatype"; "station"; "attributes"; "value"].

(** No ["_"] occurs in the text. *)
Fixpoint no_underscore (s : string) : bool :=
  match s with
  | EmptyString => true
  | String c s' => negb (Ascii.eqb c "_"%char) && no_underscore s'
  end.

(** How often the request [r] occurs in a log of requests. *)
Definition occurrences {Req : Type} `{EqDecision Req} (r : Req) (log : list Req)
  : nat :=
  length (filter (λ r', r' = r) log).

(** [data and 'results' in data] of make_requests.py, where the test goes
    through. *)
Definition has_results (data : json) : bool :=
  truthy data
  && match contains "results" data with
     | inr found => found
     | inl _ => false
     end.

(** The world [wi] in which the turn of chunk [i] starts, in a run of
    make_requests.py begun in [w]: same server, same disk, and the logs of
    [w] grown by requests and writes that are not the chunk's own. *)
Definition turn_start (i : Z) (w wi : Locations.world) : Prop :=
  net wi = net w ∧ disk wi = disk w
  ∧ (∃ sent, requests wi = requests w ++ sent
             ∧ Observed.chunk_request i ∉ sent)
  ∧ (∃ opened, writes wi = writes w ++ opened
               ∧ Locations.file_name i ∉ opened).

(** Why chunk [i] stands in the failed list with the text [msg], when its
    turn starts in [wi] and the run ends in [w']: the call of the executor
    made there, whose first request follows the log of [wi] in the log of
    [w'], handed back the error [msg]; or it handed back no error and a
    body without [results], and [msg] is the fallback text; or the body
    had [results], the write that follows the call failed, and [msg] says
    so. *)
Definition failure_cause (i : Z) (msg : string) (wi w' : Locations.world)
  : Prop :=
  ∃ data error w1,
    Locations.make_api_request
      (Locations.chunk_offset Locations.LIMIT i) Locations.LIMIT 0 wi
    = Ret (data, error) w1
    ∧ (∃ later, requests w' = requests wi ++ Observed.chunk_request i :: later)
    ∧ match error with
      | Some error_msg => msg = error_msg
      | None =>
          if has_results data
          then msg = "File save error"
               ∧ (∃ leaves_file,
                    disk w1 (length (writes w1)) = WriteFails leaves_file)
               ∧ (∃ later,
                    writes w' = writes w1 ++ Locations.file_name i :: later)
          else msg = "Unknown error"
      end.
End Traces.

(** * Properties of the two scripts *)

(** ** Planning by offset *)

Section OffsetPlanning.
Import Locations.
Variables total_units chunk_size : Z.
Hypothesis total_pos : 0 < total_units.
Hypothesis size_pos : 0 < chunk_size.

Let n := num_requests_of total_units chunk_size.

(** The request count is the ceiling of the quotient. *)
Lemma num_requests_is_ceiling :
  (n - 1) * chunk_size < total_units ≤ n * chunk_size.
Proof.
  subst n. unfold num_requests_of.
  pose proof (Z.div_mod (total_units + chunk_size - 1) chunk_size ltac:(lia)) as E.
  pose proof (Z.mod_pos_bound (total_units + chunk_size - 1) chunk_size size_pos).
  nia.
Qed.

Lemma chunk_last_min i :
  chunk_last total_units chunk_size i = Z.min ((i + 1) * chunk_size) total_units.
Proof. unfold chunk_last, chunk_offset. f_equal. lia. Qed.

Lemma chunk_nonempty i :
  0 ≤ i < n →
  1 ≤ chunk_offset chunk_size i ≤ chunk_last total_units chunk_size i
  ∧ chunk_last total_units chunk_size i ≤ total_units.
Proof.
  intros Hi. pose proof num_requests_is_ceiling.
  unfold chunk_last, chunk_offset. nia.
Qed.

(** Every record offset falls in the chunk of its quotient. *)
Lemma chunk_of_offset u :
  1 ≤ u ≤ total_units →
  let i := (u - 1) / chunk_size in
  0 ≤ i < n
  ∧ chunk_offset chunk_size i ≤ u ≤ chunk_last total_units chunk_size i.
Proof.
  intros Hu i. pose proof num_requests_is_ceiling.
  pose proof (Z.div_mod (u - 1) chunk_size ltac:(lia)) as E.
  pose proof (Z.mod_pos_bound (u - 1) chunk_size size_pos).
  fold i in E. unfold chunk_last, chunk_offset. nia.
Qed.

Lemma chunk_unique u i j :
  chunk_offset chunk_size i ≤ u ≤ chunk_last total_units chunk_size i →
  chunk_offset chunk_size j ≤ u ≤ chunk_last total_units chunk_size j →
  i = j.
Proof. unfold chunk_last, chunk_offset. nia. Qed.

End OffsetPlanning.

(** C1. Offset planning: for a positive record total and a positive chunk
    size, the number of requests is the ceiling of total/size; chunk [i]
    starts at [i*size + 1] and ends at [min((i+1)*size, total)]; the chunks
    are non-empty, lie inside [1, total], and every offset of [1, total]
    belongs to exactly one of them.  With the script's constants (38859
    records by 1000) there are 39 requests, chunk 0 is 1-1000 and chunk 38 is
    38001-38859. *)
Theorem offset_chunk_planning (total_units chunk_size : Z) :
  0 < total_units → 0 < chunk_size →
  let n := Locations.num_requests_of total_units chunk_size in
  let first := Locations.chunk_offset chunk_size in
  let last := Locations.chunk_last total_units chunk_size in
  ((n - 1) * chunk_size < total_units ≤ n * chunk_size)
  ∧ length (Py.range n) = Z.to_nat n
  ∧ (∀ i, 0 ≤ i < n →
       first i = i * chunk_size + 1
       ∧ last i = Z.min ((i + 1) * chunk_size) total_units
       ∧ 1 ≤ first i ≤ last i ∧ last i ≤ total_units)
  ∧ (∀ u, 1 ≤ u ≤ total_units →
       ∃ i, 0 ≤ i < n ∧ first i ≤ u ≤ last i
            ∧ ∀ j, 0 ≤ j < n → first j ≤ u ≤ last j → j = i)
  ∧ (Locations.num_requests_of 38859 1000 = 39
     ∧ Locations.chunk_offset 1000 0 = 1
     ∧ Locations.chunk_last 38859 1000 0 = 1000
     ∧ Locations.chunk_offset 1000 38 = 38001
     ∧ Locations.chunk_last 38859 1000 38 = 38859).
Proof.
  intros Ht Hs n first last. repeat split.
  - apply num_requests_is_ceiling; assumption.
  - apply num_requests_is_ceiling; assumption.
  - unfold Py.range. apply length_seqZ.
  - apply chunk_last_min.
  - apply (chunk_nonempty total_units chunk_size Ht Hs i); assumption.
  - apply (chunk_nonempty total_units chunk_size Ht Hs i); assumption.
  - apply (chunk_nonempty total_units chunk_size Ht Hs i); assumption.
  - intros u Hu.
    destruct (chunk_of_offset total_units chunk_size Ht Hs u Hu) as [Hi Hin].
    exists ((u - 1) / chunk_size). split; [exact Hi|]. split; [exact Hin|].
    intros j _ Hj. eapply chunk_unique; eassumption.
Qed.

Lemma offset_chunk_planning_witness :
  Locations.num_requests_of Locations.TOTAL_RECORDS Locations.LIMIT = 39
  ∧ Locations.chunk_last Locations.TOTAL_RECORDS Locations.LIMIT 38 = 38859.
Proof.
  pose proof (offset_chunk_planning Locations.TOTAL_RECORDS Locations.LIMIT
                ltac:(reflexivity) ltac:(reflexivity)) as H.
  cbv zeta in H. destruct H as (_ & _ & _ & _ & H39 & _ & _ & _ & H38).
  split; [exact H39 | exact H38].
Defined.

(** ** The retrying executor of make_requests.py *)

(** Unfolding of the sequencing operators on a given world. *)
Ltac run_step :=
  unfold mbind, Io.M_bind, Io.bind, mret, Io.M_ret, Io.ret, Io.send, Io.sleep,
    Io.lift; simpl.

Section Executor.
Import Py Io Locations Observed.

Lemma same_store_refl (w : world) : same_store w w.
Proof. by repeat split. Qed.

Lemma same_store_trans (w1 w2 w3 : world) :
  same_store w1 w2 → same_store w2 w3 → same_store w1 w3.
Proof. unfold same_store. intros (-> & -> & -> & ->) (-> & -> & -> & ->). done. Qed.

Variables offset limit : Z.
Let rq := Request limit offset.

(** The attempts left to a call entered with [retry_count]. *)
Let budget (retry_count : Z) : nat := Z.to_nat (MAX_RETRIES - retry_count).

Lemma make_api_request_rec_returns depth retry_count (w : world) :
  (budget retry_count < depth)%nat →
  ∃ r w' k,
    make_api_request_rec depth offset limit retry_count w = Ret r w'
    ∧ (1 ≤ k ≤ S (budget retry_count))%nat
    ∧ requests w' = requests w ++ replicate k rq
    ∧ same_store w w'.
Proof.
  subst budget rq. cbv beta.
  revert retry_count w.
  induction depth as [|depth IH]; intros retry_count w Hd; [lia|].
  assert (Hrec : retry_count < MAX_RETRIES → ∀ secs,
    ∃ r w' k,
      make_api_request_rec depth offset limit (retry_count + 1)
        {| net := net w;
           requests := requests w ++ [Request limit offset];
           slept := slept w ++ [secs]; disk := disk w;
           writes := writes w; files := files w |} = Ret r w'
      ∧ (1 ≤ k ≤ S (Z.to_nat (MAX_RETRIES - retry_count)))%nat
      ∧ requests w' = requests w ++ replicate k (Request limit offset)
      ∧ same_store w w').
  { intros Hlt secs.
    edestruct (IH (retry_count + 1)) as (r & w' & k & E & Hk & Hreq & Hs);
      [|exists r, w', (S k); split; [exact E|]]; [lia|].
    split; [lia|]. split; [|exact Hs].
    rewrite Hreq. simpl. by rewrite <- app_assoc. }
  assert (Hstop : ∀ (r : json * option string) sl,
    ∃ r' w' k,
      Ret r {| net := net w;
           requests := requests w ++ [Request limit offset];
           slept := sl; disk := disk w;
           writes := writes w; files := files w |} = Ret r' w'
      ∧ (1 ≤ k ≤ S (Z.to_nat (MAX_RETRIES - retry_count)))%nat
      ∧ requests w' = requests w ++ replicate k (Request limit offset)
      ∧ same_store w w').
  { intros r sl. eexists _, _, 1%nat. split; [reflexivity|].
    split; [lia|]. split; [reflexivity|]. by repeat split. }
  simpl. run_step.
  destruct (net w _ _) as [[data|e]|code reason|e]; run_step.
  - apply Hstop.
  - destruct (Z.ltb_spec retry_count MAX_RETRIES); [by apply Hrec|apply Hstop].
  - destruct (code =? 503).
    + destruct (Z.ltb_spec retry_count MAX_RETRIES); [by apply Hrec|apply Hstop].
    + destruct (code =? 429); [|apply Hstop].
      destruct (Z.ltb_spec retry_count MAX_RETRIES); [by apply Hrec|apply Hstop].
  - destruct (Z.ltb_spec retry_count MAX_RETRIES); [by apply Hrec|apply Hstop].
Qed.

(** Allowing more nesting than the budget changes nothing. *)
Lemma make_api_request_rec_depth depth1 depth2 retry_count (w : world) :
  (budget retry_count < depth1)%nat → (budget retry_count < depth2)%nat →
  make_api_request_rec depth1 offset limit retry_count w
  = make_api_request_rec depth2 offset limit retry_count w.
Proof.
  subst budget rq. cbv beta.
  revert depth2 retry_count w.
  induction depth1 as [|depth1 IH]; intros [|depth2] retry_count w H1 H2; try lia.
  assert (Hrec : retry_count < MAX_RETRIES → ∀ w',
    make_api_request_rec depth1 offset limit (retry_count + 1) w'
    = make_api_request_rec depth2 offset limit (retry_count + 1) w').
  { intros Hlt w'. apply IH; lia. }
  simpl. run_step.
  destruct (net w _ _) as [[data|e]|code reason|e]; run_step; try reflexivity.
  - destruct (Z.ltb_spec retry_count MAX_RETRIES); [by apply Hrec|reflexivity].
  - destruct (code =? 503).
    + destruct (Z.ltb_spec retry_count MAX_RETRIES); [by apply Hrec|reflexivity].
    + destruct (code =? 429); [|reflexivity].
      destruct (Z.ltb_spec retry_count MAX_RETRIES); [by apply Hrec|reflexivity].
  - destruct (Z.ltb_spec retry_count MAX_RETRIES); [by apply Hrec|reflexivity].
Qed.

(** Against a server that keeps failing transiently, the budget is used up
    to the last attempt, and the answer is the error of that attempt. *)
Lemma always_transient_exhausts depth retry_count (w : world) :
  (budget retry_count < depth)%nat →
  (∀ k, (length (requests w) ≤ k)%nat → transient (net w k rq) = true) →
  ∃ w',
    make_api_request_rec depth offset limit retry_count w
    = Ret (JNull,
           Some (last_error
                   (net w (length (requests w) + budget retry_count)%nat rq))) w'
    ∧ requests w' = requests w ++ replicate (S (budget retry_count)) rq
    ∧ same_store w w'.
Proof.
  subst budget rq. cbv beta.
  revert retry_count w.
  induction depth as [|depth IH]; intros retry_count w Hd Htr; [lia|].
  assert (Hrec : retry_count < MAX_RETRIES → ∀ secs,
    ∃ w',
      make_api_request_rec depth offset limit (retry_count + 1)
        {| net := net w;
           requests := requests w ++ [Request limit offset];
           slept := slept w ++ [secs]; disk := disk w;
           writes := writes w; files := files w |}
      = Ret (JNull,
             Some (last_error
                     (net w (length (requests w)
                             + Z.to_nat (MAX_RETRIES - retry_count))%nat
                        (Request limit offset)))) w'
      ∧ requests w' = requests w
           ++ replicate (S (Z.to_nat (MAX_RETRIES - retry_count)))
                (Request limit offset)
      ∧ same_store w w').
  { intros Hlt secs.
    edestruct (IH (retry_count + 1)) as (w' & E & Hreq & Hs);
      [| |exists w'; split; [rewrite E|]].
    - lia.
    - simpl. intros k Hk. apply Htr. rewrite length_app in Hk. simpl in Hk. lia.
    - simpl. rewrite length_app. simpl.
      replace (length (requests w) + 1
               + Z.to_nat (MAX_RETRIES - (retry_count + 1)))%nat
        with (length (requests w) + Z.to_nat (MAX_RETRIES - retry_count))%nat
        by lia.
      reflexivity.
    - split; [|exact Hs]. rewrite Hreq. simpl. rewrite <- app_assoc. simpl.
      do 2 f_equal.
      replace (Z.to_nat (MAX_RETRIES - retry_count))
        with (S (Z.to_nat (MAX_RETRIES - (retry_count + 1)))) by lia.
      reflexivity. }
  assert (Hzero : MAX_RETRIES ≤ retry_count →
    Z.to_nat (MAX_RETRIES - retry_count) = 0%nat) by lia.
  pose proof (Htr (length (requests w)) ltac:(lia)) as Hnow.
  simpl. run_step.
  destruct (net w (length (requests w)) _) as [[data|e]|code reason|e] eqn:Enet;
    run_step; simpl in Hnow; try discriminate.
  - destruct (Z.ltb_spec retry_count MAX_RETRIES); [by apply Hrec|].
    rewrite Hzero, Nat.add_0_r, Enet by done. eexists. by repeat split.
  - destruct (code =? 503) eqn:E503.
    + destruct (Z.ltb_spec retry_count MAX_RETRIES); [by apply Hrec|].
      rewrite Hzero, Nat.add_0_r, Enet by done. simpl. rewrite E503.
      eexists. by repeat split.
    + destruct (code =? 429); [|discriminate].
      destruct (Z.ltb_spec retry_count MAX_RETRIES); [by apply Hrec|].
      rewrite Hzero, Nat.add_0_r, Enet by done. simpl. rewrite E503.
      eexists. by repeat split.
  - destruct (Z.ltb_spec retry_count MAX_RETRIES); [by apply Hrec|].
    rewrite Hzero, Nat.add_0_r, Enet by done. eexists. by repeat split.
Qed.

(** A status outside 503 and 429 ends the call at once. *)
Lemma permanent_status_stops depth retry_count (w : world) code reason :
  net w (length (requests w)) rq = HTTPError code reason →
  code ≠ 503 → code ≠ 429 →
  make_api_request_rec (S depth) offset limit retry_count w
  = Ret (JNull, Some ("HTTP Error " +:+ pretty code +:+ ": " +:+ reason))
        {| net := net w; requests := requests w ++ [rq]; slept := slept w;
           disk := disk w; writes := writes w; files := files w |}.
Proof.
  intros Enet H503 H429. simpl. run_step. subst rq. rewrite Enet.
  destruct (Z.eqb_spec code 503); [done|].
  destruct (Z.eqb_spec code 429); [done|]. reflexivity.
Qed.

End Executor.

(** C10. One retry counter serves the three transient classes of
    make_requests.py: whatever the server answers, a call entered with
    [retry_count = 0] returns, after at least one and at most
    [MAX_RETRIES + 1] requests for the same page; the nesting the script
    allows itself ([MAX_RETRIES] activations under the first) is never
    exceeded, and a deeper allowance gives the same run. *)
Theorem shared_retry_budget (offset limit : Z) (w : Locations.world) :
  ∃ r w' k,
    Locations.make_api_request offset limit 0 w = Io.Ret r w'
    ∧ (1 ≤ k ≤ Z.to_nat Locations.MAX_RETRIES + 1)%nat
    ∧ Io.requests w' = Io.requests w ++ replicate k (Locations.Request limit offset)
    ∧ Observed.same_store w w'
    ∧ Locations.call_depth = S (Z.to_nat Locations.MAX_RETRIES)
    ∧ ∀ depth, (Locations.call_depth ≤ depth)%nat →
        Locations.make_api_request_rec depth offset limit 0 w
        = Locations.make_api_request offset limit 0 w.
Proof.
  destruct (make_api_request_rec_returns offset limit Locations.call_depth 0 w)
    as (r & w' & k & E & Hk & Hreq & Hs).
  { unfold Locations.call_depth. lia. }
  exists r, w', k. split; [exact E|]. split; [lia|]. split; [exact Hreq|].
  split; [exact Hs|]. split; [reflexivity|].
  intros depth Hd. unfold Locations.make_api_request.
  apply make_api_request_rec_depth; unfold Locations.call_depth in *; lia.
Qed.

(** C5. A status outside 503 and 429 is final for make_requests.py: the call
    issues its one request, does not sleep, and returns no data with
    ["HTTP Error <code>: <reason>"] as the error. *)
Theorem permanent_failure_short_circuit
    (offset limit retry_count code : Z) (reason : string) (w : Locations.world) :
  Io.net w (length (Io.requests w)) (Locations.Request limit offset)
    = Locations.HTTPError code reason →
  code ≠ 503 → code ≠ 429 →
  ∃ w',
    Locations.make_api_request offset limit retry_count w
    = Io.Ret (Py.JNull, Some ("HTTP Error " +:+ pretty code +:+ ": " +:+ reason)) w'
    ∧ Io.requests w' = Io.requests w ++ [Locations.Request limit offset]
    ∧ Io.slept w' = Io.slept w
    ∧ Observed.same_store w w'.
Proof.
  intros Enet H503 H429. eexists. split.
  - unfold Locations.make_api_request, Locations.call_depth.
    apply permanent_status_stops; eassumption.
  - by repeat split.
Qed.

Lemma permanent_failure_short_circuit_witness :
  ∃ w',
    Locations.make_api_request 1 1000 0
      (Observed.fresh (λ _ _, Locations.HTTPError 404 "Not Found") (λ _, Io.WriteOk))
    = Io.Ret (Py.JNull, Some "HTTP Error 404: Not Found") w'
    ∧ Io.requests w' = [Locations.Request 1000 1]
    ∧ Io.slept w' = [].
Proof.
  destruct (permanent_failure_short_circuit 1 1000 0 404 "Not Found"
              (Observed.fresh (λ _ _, Locations.HTTPError 404 "Not Found")
                 (λ _, Io.WriteOk)))
    as (w' & E & Hreq & Hsl & _); [reflexivity | lia | lia |].
  exists w'. split; [exact E|]. split; [exact Hreq | exact Hsl].
Defined.

(** ** The executor of fetch_monthly_data.py *)

Section MonthlyExecutor.
Import Py Io Monthly Observed.

Variables start_date end_date : string.
Let rq := Request start_date end_date.

(** The monthly fetcher has no retry: a failed request is reported at once. *)
Lemma monthly_failure_once (w : world) :
  monthly_transient (net w (length (requests w)) rq) = true →
  make_api_request start_date end_date w
  = Ret (JNull,
         Some ("Request error: "
               +:+ monthly_str_e (net w (length (requests w)) rq)))
        {| net := net w; requests := requests w ++ [rq]; slept := slept w;
           disk := disk w; writes := writes w; files := files w |}.
Proof.
  subst rq. unfold make_api_request. run_step.
  destruct (net w _ _) as [str_e|status_code str_http_error c]; simpl.
  - reflexivity.
  - intros H. unfold is_error_status.
    destruct (Z.eqb_spec status_code 503) as [->|]; [reflexivity|].
    destruct (Z.eqb_spec status_code 429) as [->|]; [reflexivity|].
    discriminate.
Qed.

(** Whatever happens, exactly one request goes out and the store is left
    alone. *)
Lemma monthly_executor_one_request (w : world) :
  ∃ w', final_world (make_api_request start_date end_date w) = Some w'
        ∧ requests w' = requests w ++ [rq]
        ∧ slept w' = slept w
        ∧ same_store w w'.
Proof.
  subst rq. unfold make_api_request. run_step.
  destruct (net w _ _) as [str_e|status_code str_http_error c]; simpl.
  { eexists. by repeat split. }
  destruct (is_error_status status_code); simpl.
  { eexists. by repeat split. }
  destruct c as [|[|] str_e|data]; simpl; try (eexists; by repeat split).
  destruct (get data "results" (JArr [])) as [e|results]; simpl;
    [eexists; by repeat split|].
  destruct (iter results) as [e|items]; simpl; [eexists; by repeat split|].
  destruct (adjust_items items) as [e|adjusted]; simpl;
    [eexists; by repeat split|].
  destruct (setitem data "results" (JArr adjusted)) as [e|data']; simpl;
    eexists; by repeat split.
Qed.

End MonthlyExecutor.

(** C2, as the code has it. Against a server that only ever fails
    transiently, the executor of make_requests.py, entered with
    [retry_count = 0], sends exactly [MAX_RETRIES + 1 = 4] requests and
    returns no data with an error; when the last attempt met a 503 the error
    is ["Max retries exceeded: HTTP Error 503: <reason>"]. The executor of
    fetch_monthly_data.py has no retry: on such a failure it sends one
    request, does not sleep, and returns no data with
    ["Request error: <exception text>"]. *)
Theorem retry_bound_per_executor
    (offset limit : Z) (w : Locations.world)
    (start_date end_date : string) (wm : Monthly.world) :
  (∀ k, (length (Io.requests w) ≤ k)%nat →
        Observed.transient (Io.net w k (Locations.Request limit offset)) = true) →
  Observed.monthly_transient
    (Io.net wm (length (Io.requests wm)) (Monthly.Request start_date end_date))
  = true →
  (∃ msg w',
     Locations.make_api_request offset limit 0 w = Io.Ret (Py.JNull, Some msg) w'
     ∧ Io.requests w'
       = Io.requests w
         ++ replicate (Z.to_nat (Locations.MAX_RETRIES + 1))
              (Locations.Request limit offset)
     ∧ Z.to_nat (Locations.MAX_RETRIES + 1) = 4%nat
     ∧ ∀ reason,
         Io.net w (length (Io.requests w) + Z.to_nat Locations.MAX_RETRIES)%nat
           (Locations.Request limit offset)
         = Locations.HTTPError 503 reason →
         msg = "Max retries exceeded: HTTP Error 503: " +:+ reason)
  ∧ (∃ wm',
       Monthly.make_api_request start_date end_date wm
       = Io.Ret (Py.JNull,
                 Some ("Request error: "
                       +:+ Observed.monthly_str_e
                             (Io.net wm (length (Io.requests wm))
                                (Monthly.Request start_date end_date)))) wm'
       ∧ Io.requests wm' = Io.requests wm ++ [Monthly.Request start_date end_date]
       ∧ Io.slept wm' = Io.slept wm).
Proof.
  intros Htr Hm. split.
  - destruct (always_transient_exhausts offset limit Locations.call_depth 0 w)
      as (w' & E & Hreq & _).
    { unfold Locations.call_depth. lia. }
    { exact Htr. }
    eexists _, w'. split; [exact E|]. split; [exact Hreq|].
    split; [reflexivity|].
    intros reason Elast.
    replace (Z.to_nat (Locations.MAX_RETRIES - 0))
      with (Z.to_nat Locations.MAX_RETRIES) by reflexivity.
    rewrite Elast. reflexivity.
  - rewrite monthly_failure_once by exact Hm. eexists. by repeat split.
Qed.

Lemma retry_bound_per_executor_witness :
  (∃ w',
     Locations.make_api_request 1 1000 0
       (Observed.fresh (λ _ _, Locations.HTTPError 503 "Service Unavailable")
          (λ _, Io.WriteOk))
     = Io.Ret (Py.JNull,
               Some "Max retries exceeded: HTTP Error 503: Service Unavailable") w'
     ∧ length (Io.requests w') = 4%nat)
  ∧ (∃ wm',
       Monthly.make_api_request "1938-01-01" "1947-12-31"
         (Observed.fresh (λ _ _, Monthly.RequestException "timed out")
            (λ _, Io.WriteOk))
       = Io.Ret (Py.JNull, Some "Request error: timed out") wm'
       ∧ length (Io.requests wm') = 1%nat).
Proof.
  destruct (retry_bound_per_executor 1 1000
              (Observed.fresh (λ _ _, Locations.HTTPError 503 "Service Unavailable")
                 (λ _, Io.WriteOk))
              "1938-01-01" "1947-12-31"
              (Observed.fresh (λ _ _, Monthly.RequestException "timed out")
                 (λ _, Io.WriteOk)))
    as [(msg & w' & E & Hreq & _ & Hmsg) (wm' & Em & Hreqm & _)].
  - intros k _. reflexivity.
  - reflexivity.
  - split.
    + exists w'. rewrite (Hmsg "Service Unavailable" eq_refl) in E.
      split; [exact E|]. rewrite Hreq. reflexivity.
    + exists wm'. split; [exact Em|]. rewrite Hreqm. reflexivity.
Defined.

(** C2 fails as written: fetch_monthly_data.py gives a 503 a single attempt,
    not four, and its error does not speak of retries. *)
Lemma retry_bound_fails_for_monthly :
  ∃ wm',
    Monthly.make_api_request "1938-01-01" "1947-12-31"
      (Observed.fresh
         (λ _ _, Monthly.Response 503 "503 Server Error: Service Unavailable"
                   Monthly.Empty)
         (λ _, Io.WriteOk))
    = Io.Ret (Py.JNull, Some "Request error: 503 Server Error: Service Unavailable")
        wm'
    ∧ length (Io.requests wm') = 1%nat
    ∧ length (Io.requests wm') ≠ Z.to_nat (Locations.MAX_RETRIES + 1).
Proof. eexists. split; [reflexivity|]. split; [reflexivity|]. vm_compute. lia. Qed.

(** ** Planning by years *)

Section DatePlanning.
Import Monthly Observed.
Variables END_YEAR CHUNK_SIZE : Z.
Hypothesis chunk_pos : 0 < CHUNK_SIZE.

(** Windows still to open from [current_year]. *)
Let remaining (current_year : Z) : Z :=
  if current_year <=? END_YEAR then (END_YEAR - current_year) / CHUNK_SIZE + 1
  else 0.

Lemma remaining_step current_year :
  current_year ≤ END_YEAR →
  remaining current_year = remaining (current_year + CHUNK_SIZE) + 1
  ∧ 0 ≤ remaining (current_year + CHUNK_SIZE).
Proof.
  intros Hle. subst remaining. cbv beta.
  destruct (Z.leb_spec current_year END_YEAR); [|lia].
  destruct (Z.leb_spec (current_year + CHUNK_SIZE) END_YEAR).
  - replace (END_YEAR - current_year)
      with ((END_YEAR - (current_year + CHUNK_SIZE)) + 1 * CHUNK_SIZE) by lia.
    rewrite Z.div_add by lia.
    pose proof (Z.div_pos (END_YEAR - (current_year + CHUNK_SIZE)) CHUNK_SIZE).
    lia.
  - rewrite Z.div_small by lia. lia.
Qed.

Lemma year_windows_cons current_year n :
  0 ≤ n →
  year_windows END_YEAR CHUNK_SIZE current_year (n + 1)
  = year_window END_YEAR CHUNK_SIZE current_year
    :: year_windows END_YEAR CHUNK_SIZE (current_year + CHUNK_SIZE) n.
Proof.
  intros Hn. unfold year_windows.
  rewrite seqZ_cons by lia. rewrite fmap_cons. f_equal.
  - f_equal. lia.
  - replace (Z.pred (n + 1)) with n by lia.
    replace (seqZ (Z.succ 0) n) with (Z.add 1 <$> seqZ 0 n)
      by (by rewrite fmap_add_seqZ).
    rewrite <- list_fmap_compose.
    apply list_fmap_ext. intros _ i _. simpl. f_equal. lia.
Qed.

Lemma create_date_ranges_loop_spec fuel current_year ranges :
  (Z.to_nat (END_YEAR - current_year + 1) ≤ fuel)%nat →
  create_date_ranges_loop fuel END_YEAR CHUNK_SIZE current_year ranges
  = Some (ranges
          ++ year_windows END_YEAR CHUNK_SIZE current_year (remaining current_year)).
Proof.
  revert current_year ranges.
  induction fuel as [|fuel IH]; intros current_year ranges Hfuel.
  - simpl. destruct (Z.leb_spec current_year END_YEAR) as [Hle|Hgt]; [lia|].
    subst remaining. cbv beta.
    destruct (Z.leb_spec current_year END_YEAR); [lia|].
    unfold year_windows. rewrite seqZ_nil by lia. by rewrite app_nil_r.
  - simpl. destruct (Z.leb_spec current_year END_YEAR) as [Hle|Hgt].
    + rewrite IH by lia.
      destruct (remaining_step current_year Hle) as [-> Hpos].
      rewrite year_windows_cons by exact Hpos.
      rewrite <- app_assoc. reflexivity.
    + subst remaining. cbv beta.
      destruct (Z.leb_spec current_year END_YEAR); [lia|].
      unfold year_windows. rewrite seqZ_nil by lia. by rewrite app_nil_r.
Qed.

End DatePlanning.

(** C3. Planning by years: for [start_year <= end_year] and a positive
    window length the planner returns [(end_year - start_year) / length + 1]
    windows; window [i] runs from [start_year + i*length] to
    [min(start_year + (i+1)*length - 1, end_year)], starts no later than
    [end_year] while the next start after the last window is beyond it, and
    carries the dates [<first year>-01-01] and [<last year>-12-31].  With the
    script's constants (1938 to 2018 by 10) there are 9 windows, from
    1938-01-01..1947-12-31 to 2018-01-01..2018-12-31. *)
Theorem date_chunk_planning (start_year end_year years_per_chunk : Z) :
  start_year ≤ end_year → 0 < years_per_chunk →
  ∃ ranges,
    Monthly.create_date_ranges_of start_year end_year years_per_chunk = Some ranges
    ∧ Z.of_nat (length ranges) = (end_year - start_year) / years_per_chunk + 1
    ∧ (∀ (i : nat) r, ranges !! i = Some r →
         Monthly.start_year r = start_year + Z.of_nat i * years_per_chunk
         ∧ Monthly.end_year r
           = Z.min (start_year + (Z.of_nat i + 1) * years_per_chunk - 1) end_year
         ∧ Monthly.start_year r ≤ end_year
         ∧ Monthly.start_date r = pretty (Monthly.start_year r) +:+ "-01-01"
         ∧ Monthly.end_date r = pretty (Monthly.end_year r) +:+ "-12-31")
    ∧ end_year < start_year + Z.of_nat (length ranges) * years_per_chunk
    ∧ (∃ first middle last,
         Monthly.create_date_ranges = Some (first :: middle ++ [last])
         ∧ length (first :: middle ++ [last]) = 9%nat
         ∧ Monthly.start_date first = "1938-01-01"
         ∧ Monthly.end_date first = "1947-12-31"
         ∧ Monthly.start_date last = "2018-01-01"
         ∧ Monthly.end_date last = "2018-12-31").
Proof.
  intros Hle Hpos.
  set (n := (end_year - start_year) / years_per_chunk + 1).
  assert (Hn : 0 < n).
  { subst n. pose proof (Z.div_pos (end_year - start_year) years_per_chunk). lia. }
  exists (Observed.year_windows end_year years_per_chunk start_year n).
  assert (Hlen : Z.of_nat (length (Observed.year_windows end_year years_per_chunk
                                     start_year n)) = n).
  { unfold Observed.year_windows. rewrite length_fmap, length_seqZ. lia. }
  split.
  { unfold Monthly.create_date_ranges_of.
    rewrite (create_date_ranges_loop_spec end_year years_per_chunk Hpos) by lia.
    destruct (Z.leb_spec start_year end_year); [reflexivity|lia]. }
  split; [exact Hlen|].
  assert (Hbound : (n - 1) * years_per_chunk ≤ end_year - start_year
                   < n * years_per_chunk).
  { subst n.
    pose proof (Z.div_mod (end_year - start_year) years_per_chunk ltac:(lia)).
    pose proof (Z.mod_pos_bound (end_year - start_year) years_per_chunk Hpos).
    nia. }
  split; [|split].
  - intros i r Hi. unfold Observed.year_windows in Hi.
    rewrite list_lookup_fmap in Hi.
    destruct (seqZ 0 n !! i) as [j|] eqn:Hj; [|discriminate].
    apply lookup_seqZ in Hj as [-> Hlt]. simpl in Hi. injection Hi as <-.
    unfold Observed.year_window. simpl.
    repeat split; try reflexivity; [f_equal; lia | nia].
  - rewrite Hlen. lia.
  - eexists _, [_; _; _; _; _; _; _], _.
    split; [vm_compute; reflexivity|]. by repeat split.
Qed.

Lemma date_chunk_planning_witness :
  ∃ ranges,
    Monthly.create_date_ranges_of Monthly.START_YEAR Monthly.END_YEAR
      Monthly.CHUNK_SIZE = Some ranges
    ∧ Z.of_nat (length ranges) = 9.
Proof.
  destruct (date_chunk_planning Monthly.START_YEAR Monthly.END_YEAR
              Monthly.CHUNK_SIZE ltac:(vm_compute; discriminate) ltac:(reflexivity))
    as (ranges & E & Hlen & _).
  exists ranges. split; [exact E | exact Hlen].
Defined.

(** ** The ledger kept by a run controller *)

(** Both scripts drive the same loop: a chunk found on disk is counted and
    skipped; any other is fetched and either saved and counted, or entered
    in the failed list.  The section derives the state of the ledger, of the
    directory and of the request log after the loop from that description of
    one turn. *)
Section Ledger.
Import Py Io Observed.
Context {Req Resp A F : Type}.
Implicit Types (w : world Req Resp) (l : list A) (failed : list F).

Variable key : A → string.      (* file name of a chunk *)
Variable req : A → Req.         (* request of a chunk *)
Variable owner : F → string.    (* file name a failed entry refers to *)
Variable skip : A → Prop.       (* found on disk at the start *)
Variable body : A → Z * list F → M Req Resp (Z * list F).

Hypothesis skip_dec : ∀ x, Decision (skip x).
Hypothesis body_skip : ∀ x successful failed w,
  skip x → body x (successful, failed) w = Ret (successful + 1, failed) w.
Hypothesis body_turn : ∀ x successful failed w,
  ¬ skip x →
  turn owner (req x) (key x) successful failed w (body x (successful, failed) w).

Local Abbreviation ledger_after := (ledger_after key req owner skip).
Local Abbreviation only_missing_requested := (only_missing_requested req skip).

Lemma ledger_after_nil st w : ledger_after [] st w st w.
Proof.
  exists []. rewrite app_nil_r. split; [done|]. split; [constructor|].
  split; [done|]. split; [|split; [|split; [done|]]].
  - intros e He. by apply elem_of_nil in He.
  - intros x Hx. by apply elem_of_nil in Hx.
  - exists []. rewrite app_nil_r. split; [done|].
    intros r. split.
    + intros Hr. by apply elem_of_nil in Hr.
    + intros (x & Hx & _). by apply elem_of_nil in Hx.
Qed.

Lemma ledger_after_skip x l successful failed w st' w' :
  skip x →
  ledger_after l (successful + 1, failed) w st' w' →
  ledger_after (x :: l) (successful, failed) w st' w'.
Proof.
  intros Hskip (fnew & Hf & Hnd & Hcount & Hfail & Hdone & Hframe & new & Hreq & Hnew).
  exists fnew. simpl in *. split; [exact Hf|]. split; [exact Hnd|].
  split; [lia|]. split; [|split; [|split]].
  - intros e He. destruct (Hfail e He) as (y & Hy & Hns & Hown & Hfile).
    exists y. rewrite elem_of_cons. eauto.
  - intros y Hy Hnot. apply elem_of_cons in Hy as [->|Hy]; [by left|].
    by apply Hdone.
  - intros name Hname. apply Hframe. intros y Hy. apply Hname.
    rewrite elem_of_cons. by right.
  - exists new. split; [exact Hreq|]. intros r. rewrite Hnew. split.
    + intros (y & Hy & Hns & ->). exists y. rewrite elem_of_cons. eauto.
    + intros (y & Hy & Hns & ->). apply elem_of_cons in Hy as [->|Hy]; [done|].
      by exists y.
Qed.

(** Names of later chunks differ from the name of chunk [x]. *)
Lemma later_names_differ x l y :
  NoDup (key <$> x :: l) → y ∈ l → key x ≠ key y.
Proof.
  rewrite fmap_cons, NoDup_cons. intros [Hx _] Hy E. apply Hx. rewrite E.
  by apply list_elem_of_fmap_2.
Qed.

Lemma ledger_after_saved x l successful failed w w1 data st' w' :
  NoDup (key <$> x :: l) → ¬ skip x →
  fetched (req x) w w1 →
  files w1 = <[key x := Written data]> (files w) →
  ledger_after l (successful + 1, failed) w1 st' w' →
  ledger_after (x :: l) (successful, failed) w st' w'.
Proof.
  intros Hkeys Hns (k & Hk & Hreq1) Hfiles
    (fnew & Hf & Hnd & Hcount & Hfail & Hdone & Hframe & new & Hreq & Hnew).
  assert (Hx : files w' !! key x = Some (Written data)).
  { rewrite Hframe, Hfiles.
    - apply lookup_insert_eq.
    - intros y Hy _. by eapply later_names_differ. }
  exists fnew. simpl in *. split; [exact Hf|]. split; [exact Hnd|].
  split; [lia|]. split; [|split; [|split]].
  - intros e He. destruct (Hfail e He) as (y & Hy & Hnsy & Hown & Hfile).
    exists y. rewrite elem_of_cons. split; [by right|]. split; [done|].
    split; [done|]. rewrite Hfiles, lookup_insert_ne in Hfile; [done|].
    by eapply later_names_differ.
  - intros y Hy Hnot. apply elem_of_cons in Hy as [->|Hy].
    + right. by exists data.
    + by apply Hdone.
  - intros name Hname. rewrite Hframe, Hfiles.
    + apply lookup_insert_ne. intros E. eapply (Hname x); [|done|done].
      rewrite elem_of_cons. by left.
    + intros y Hy. apply Hname. rewrite elem_of_cons. by right.
  - exists (replicate k (req x) ++ new).
    split; [by rewrite Hreq, Hreq1, <- app_assoc|].
    intros r. rewrite elem_of_app, elem_of_replicate, Hnew. split.
    + intros [[-> _]|(y & Hy & Hnsy & ->)].
      * exists x. rewrite elem_of_cons. eauto.
      * exists y. rewrite elem_of_cons. eauto.
    + intros (y & Hy & Hnsy & ->). apply elem_of_cons in Hy as [->|Hy].
      * left. split; [done|lia].
      * right. by exists y.
Qed.

Lemma ledger_after_failed x l successful failed w w1 entry st' w' :
  NoDup (key <$> x :: l) → ¬ skip x →
  owner entry = key x →
  fetched (req x) w w1 →
  files w1 = files w ∨ files w1 = <[key x := Partial]> (files w) →
  ledger_after l (successful, failed ++ [entry]) w1 st' w' →
  ledger_after (x :: l) (successful, failed) w st' w'.
Proof.
  intros Hkeys Hns Hown (k & Hk & Hreq1) Hfiles
    (fnew & Hf & Hnd & Hcount & Hfail & Hdone & Hframe & new & Hreq & Hnew).
  assert (Hother : ∀ name, name ≠ key x → files w1 !! name = files w !! name).
  { intros name Hname. destruct Hfiles as [->| ->]; [done|].
    by apply lookup_insert_ne. }
  assert (Hfresh : key x ∉ owner <$> fnew).
  { intros (e & He & Hin)%list_elem_of_fmap.
    destruct (Hfail e Hin) as (y & Hy & _ & Hown' & _).
    eapply later_names_differ; [exact Hkeys|exact Hy|]. congruence. }
  exists (entry :: fnew). simpl in *.
  split; [by rewrite Hf, <- app_assoc|].
  split; [rewrite NoDup_cons, Hown; done|].
  split; [lia|]. split; [|split; [|split]].
  - intros e [->|He]%elem_of_cons.
    + exists x. rewrite elem_of_cons. split; [by left|]. split; [done|].
      split; [done|]. rewrite Hframe.
      * destruct Hfiles as [->| ->]; [by left|right; apply lookup_insert_eq].
      * intros y Hy _. by eapply later_names_differ.
    + destruct (Hfail e He) as (y & Hy & Hnsy & Hown' & Hfile).
      exists y. rewrite elem_of_cons. split; [by right|]. split; [done|].
      split; [done|]. rewrite Hother in Hfile; [done|].
      intros E. by eapply later_names_differ.
  - intros y Hy Hnot. rewrite elem_of_cons in Hnot.
    apply elem_of_cons in Hy as [->|Hy].
    + destruct Hnot. by left.
    + apply Hdone; [done|]. intros Hin. apply Hnot. by right.
  - intros name Hname. rewrite Hframe, Hother.
    + done.
    + intros E. eapply (Hname x); [|done|done]. rewrite elem_of_cons. by left.
    + intros y Hy. apply Hname. rewrite elem_of_cons. by right.
  - exists (replicate k (req x) ++ new).
    split; [by rewrite Hreq, Hreq1, <- app_assoc|].
    intros r. rewrite elem_of_app, elem_of_replicate, Hnew. split.
    + intros [[-> _]|(y & Hy & Hnsy & ->)].
      * exists x. rewrite elem_of_cons. eauto.
      * exists y. rewrite elem_of_cons. eauto.
    + intros (y & Hy & Hnsy & ->). apply elem_of_cons in Hy as [->|Hy].
      * left. split; [done|lia].
      * right. by exists y.
Qed.

Lemma only_missing_requested_cons x l w w1 w' :
  (w1 = w ∨ ¬ skip x ∧ fetched (req x) w w1) →
  only_missing_requested l w1 w' →
  only_missing_requested (x :: l) w w'.
Proof.
  intros Hx (new & Hreq & Hnew).
  assert (Hlater : ∀ r, r ∈ new → ∃ y, y ∈ x :: l ∧ ¬ skip y ∧ r = req y).
  { intros r Hr. destruct (Hnew r Hr) as (y & Hy & Hnsy & ->).
    exists y. rewrite elem_of_cons. eauto. }
  destruct Hx as [->|[Hns (k & Hk & Hreq1)]].
  - by exists new.
  - exists (replicate k (req x) ++ new).
    split; [by rewrite Hreq, Hreq1, <- app_assoc|].
    intros r [[-> _]%elem_of_replicate|Hr]%elem_of_app; [|by apply Hlater].
    exists x. rewrite elem_of_cons. eauto.
Qed.

Lemma ledger_after_only_missing l st w st' w' :
  ledger_after l st w st' w' → only_missing_requested l w w'.
Proof.
  intros (fnew & _ & _ & _ & _ & _ & _ & new & Hreq & Hnew).
  exists new. split; [done|]. intros r Hr. by apply Hnew.
Qed.

(** The loop over the chunks of [l], from any ledger and any world. *)
Lemma for_each_ledger l st w :
  NoDup (key <$> l) →
  match for_each l body st w with
  | Ret st' w' => ledger_after l st w st' w'
  | Raise _ w' => only_missing_requested l w w'
  | OutOfFuel => False
  end.
Proof.
  revert st w. induction l as [|x l IH]; intros [successful failed] w Hkeys.
  { simpl. apply ledger_after_nil. }
  assert (Hl : NoDup (key <$> l)).
  { rewrite fmap_cons, NoDup_cons in Hkeys. by destruct Hkeys. }
  simpl. unfold bind.
  destruct (skip_dec x) as [Hskip|Hns].
  - rewrite body_skip by done.
    specialize (IH (successful + 1, failed) w Hl).
    destruct (for_each l body _ w) as [st' w'|e w'|]; [|
      |done].
    + by apply ledger_after_skip.
    + eapply only_missing_requested_cons; [by left|done].
  - pose proof (body_turn x successful failed w Hns) as Hturn.
    inversion Hturn as [w1 data Hfetch Hfiles E|w1 entry Hown Hfetch Hfiles E
                        |e w1 Hfetch E]; clear Hturn.
    + specialize (IH (successful + 1, failed) w1 Hl).
      destruct (for_each l body _ w1) as [st' w'|e w'|]; [| |done].
      * by eapply ledger_after_saved.
      * eapply only_missing_requested_cons; [right|]; done.
    + specialize (IH (successful, failed ++ [entry]) w1 Hl).
      destruct (for_each l body _ w1) as [st' w'|e w'|]; [| |done].
      * by eapply ledger_after_failed.
      * eapply only_missing_requested_cons; [right|]; done.
    + exists (new_requests w w1). destruct Hfetch as (k & Hk & Hreq).
      unfold new_requests. rewrite Hreq, drop_app_length.
      split; [done|]. intros r [-> _]%elem_of_replicate.
      exists x. rewrite elem_of_cons. eauto.
Qed.

End Ledger.

(** ** The run controller of make_requests.py *)

Section StringFacts.

Lemma string_app_length (s t : string) :
  String.length (s +:+ t) = (String.length s + String.length t)%nat.
Proof. induction s as [|c s IH]; simpl; [done|by rewrite IH]. Qed.

Lemma string_app_inj_r (s1 s2 t : string) : s1 +:+ t = s2 +:+ t → s1 = s2.
Proof.
  revert s2. induction s1 as [|c s1 IH]; intros [|d s2] E; simpl in E.
  - done.
  - apply (f_equal String.length) in E. simpl in E.
    rewrite !string_app_length in E. simpl in E. lia.
  - apply (f_equal String.length) in E. simpl in E.
    rewrite !string_app_length in E. simpl in E. lia.
  - injection E as -> E. by rewrite (IH _ E).
Qed.

End StringFacts.

Section LocationsLedger.
Import Py Io Locations Observed.

(** Distinct chunks are stored under distinct names. *)
Lemma file_name_inj i j : file_name i = file_name j → i = j.
Proof.
  unfold file_name. intros E.
  apply (inj (String.app "locations_")) in E.
  apply string_app_inj_r in E. by apply (inj pretty).
Qed.

Lemma NoDup_file_names (l : list Z) : NoDup l → NoDup (file_name <$> l).
Proof.
  intros Hl. apply NoDup_fmap_2_strong; [|done].
  intros i j _ _. apply file_name_inj.
Qed.

(** The probe reads the directory and leaves the world as it is. *)
Lemma probe_spec (l : list Z) (acc : list Z) (w : world) :
  for_each l
    (λ i existing_files,
       present ← exists_file (file_name i);
       mret (if present : bool then existing_files ++ [i] else existing_files))
    acc w
  = Ret (acc ++ filter (λ i, is_Some (files w !! file_name i)) l) w.
Proof.
  revert acc. induction l as [|i l IH]; intros acc; simpl.
  { by rewrite app_nil_r. }
  unfold bind. run_step. unfold exists_file. rewrite filter_cons.
  destruct (decide (is_Some (files w !! file_name i))) as [Hi|Hi].
  - rewrite bool_decide_true by done. rewrite IH. by rewrite <- app_assoc.
  - rewrite bool_decide_false by done. by rewrite IH.
Qed.

Lemma check_existing_files_spec (w : world) :
  check_existing_files w = Ret (found_on_disk w) w.
Proof. unfold check_existing_files. by rewrite probe_spec. Qed.

Lemma elem_of_found_on_disk (w : world) i :
  i ∈ found_on_disk w ↔ present w (file_name i) ∧ 0 ≤ i < 39.
Proof.
  unfold found_on_disk, range. rewrite list_elem_of_filter, elem_of_seqZ.
  unfold present. intuition lia.
Qed.

(** The turn of a chunk whose file was not found. *)
Lemma locations_turn n ex i successful failed (w : world) :
  i ∉ ex →
  turn entry_file (chunk_request i) (file_name i) successful failed w
    (main_body n ex i (successful, failed) w).
Proof.
  intros Hi. unfold main_body. rewrite bool_decide_false by done.
  destruct (make_api_request_rec_returns (chunk_offset LIMIT i) LIMIT call_depth 0 w)
    as ([data error] & w1 & k & E & Hk & Hreq & Hs).
  { unfold call_depth; lia. }
  unfold mbind at 1, M_bind, bind.
  fold (make_api_request (chunk_offset LIMIT i) LIMIT 0).
  unfold make_api_request at 1. rewrite E.
  destruct Hs as (_ & _ & _ & Hfiles).
  unfold save_to_file, write_file. run_step.
  destruct (truthy data); simpl;
    [destruct (contains "results" data) as [e|[|]]; simpl|];
    try destruct (disk w1 (length (writes w1))) as [|[|]]; simpl;
    try destruct (getitem data "results") as [e|results]; simpl;
    try destruct (len results) as [e|count]; simpl;
    destruct (i <? n - 1); simpl;
    first
      [ eapply turn_saved; [exists k; split; [lia|exact Hreq]|simpl; by rewrite Hfiles]
      | eapply turn_failed;
        [reflexivity|exists k; split; [lia|exact Hreq]|simpl; rewrite Hfiles; auto]
      | eapply turn_raised; exists k; split; [lia|exact Hreq] ].
Qed.

Lemma locations_skip n ex i successful failed (w : world) :
  i ∈ ex →
  main_body n ex i (successful, failed) w = Ret (successful + 1, failed) w.
Proof. intros Hi. unfold main_body. by rewrite bool_decide_true. Qed.

(** [main] is its loop, between two probes of the directory. *)
Lemma main_unfold (w : world) :
  main w
  = match main_loop 39 (found_on_disk w) w with
    | Ret r w' => Ret r w'
    | Raise e w' => Raise e w'
    | OutOfFuel => OutOfFuel
    end.
Proof.
  unfold main. unfold mbind at 1, M_bind, bind.
  rewrite check_existing_files_spec.
  change (num_requests_of TOTAL_RECORDS LIMIT) with 39.
  unfold mbind at 1, M_bind, bind.
  destruct (main_loop 39 (found_on_disk w) w) as [r w'|e w'|]; [|done|done].
  unfold mbind, M_bind, bind. rewrite check_existing_files_spec. reflexivity.
Qed.

(** The ledger of a whole run. *)
Lemma locations_main_ledger (w : world) :
  match main w with
  | Ret st w' =>
      ledger_after file_name chunk_request entry_file (λ i, i ∈ found_on_disk w)
        planned (0, []) w st w'
  | Raise _ w' =>
      only_missing_requested chunk_request (λ i, i ∈ found_on_disk w) planned w w'
  | OutOfFuel => False
  end.
Proof.
  rewrite main_unfold. unfold main_loop.
  pose proof (for_each_ledger file_name chunk_request entry_file
                (λ i, i ∈ found_on_disk w)
                (main_body 39 (found_on_disk w))
                (λ i, _)
                (λ i s f w0, locations_skip 39 (found_on_disk w) i s f w0)
                (λ i s f w0, locations_turn 39 (found_on_disk w) i s f w0)
                (range 39) (0, []) w
                (NoDup_file_names _ (NoDup_seqZ _ _))) as H.
  by destruct (for_each (range 39) _ _ w).
Qed.

End LocationsLedger.

Section LocationsRun.
Import Py Io Locations Observed.

Lemma chunk_request_inj i j : chunk_request i = chunk_request j → i = j.
Proof. unfold chunk_request, chunk_offset, LIMIT. intros [= E]. lia. Qed.

Lemma elem_of_planned i : i ∈ planned ↔ 0 ≤ i < 39.
Proof.
  unfold planned. change (num_requests_of TOTAL_RECORDS LIMIT) with 39.
  unfold range. rewrite elem_of_seqZ. lia.
Qed.

Lemma length_planned : length planned = 39%nat.
Proof. reflexivity. Qed.

Lemma skipped_iff_present (w : world) i :
  i ∈ planned → (i ∈ found_on_disk w ↔ present w (file_name i)).
Proof. rewrite elem_of_planned, elem_of_found_on_disk. tauto. Qed.

Lemma not_present_not_persisted (w : world) name :
  ¬ present w name → ¬ persisted w name.
Proof. intros Hn [data E]. apply Hn. unfold present. by rewrite E. Qed.

(** What the ledger of a finished run says, chunk by chunk. *)
Lemma locations_run_facts (w : world) st w' :
  main w = Ret st w' →
  NoDup st.2.*1
  ∧ (∀ i, i ∈ st.2.*1 →
       i ∈ planned ∧ ¬ present w (file_name i) ∧ ¬ persisted w' (file_name i))
  ∧ (∀ i, i ∈ planned → i ∉ st.2.*1 →
       present w (file_name i) ∨ persisted w' (file_name i))
  ∧ st.1 + Z.of_nat (length st.2) = Z.of_nat (length planned)
  ∧ (∀ i, i ∈ planned → present w (file_name i) →
       files w' !! file_name i = files w !! file_name i)
  ∧ (∀ i, i ∈ planned →
       chunk_request i ∈ new_requests w w' ↔ ¬ present w (file_name i)).
Proof.
  intros Hmain. pose proof (locations_main_ledger w) as H. rewrite Hmain in H.
  destruct H as (fnew & Hf & Hnd & Hcount & Hfail & Hdone & Hframe
                 & new & Hreq & Hnew).
  cbn [fst snd app] in Hf, Hcount. rewrite Hf.
  assert (Hentry : ∀ i, i ∈ fnew.*1 →
            i ∈ planned ∧ ¬ present w (file_name i)
            ∧ (files w' !! file_name i = files w !! file_name i
               ∨ files w' !! file_name i = Some Partial)).
  { intros i (e & -> & He)%list_elem_of_fmap.
    destruct (Hfail e He) as (x & Hx & Hns & Hown & Hfile).
    apply file_name_inj in Hown. rewrite Hown.
    rewrite skipped_iff_present in Hns by exact Hx.
    split; [exact Hx|]. split; [exact Hns|exact Hfile]. }
  split; [|split; [|split; [|split; [|split]]]].
  - apply (NoDup_fmap_1 file_name). by rewrite <- list_fmap_compose.
  - intros i Hi. destruct (Hentry i Hi) as (Hp & Hnp & Hfile).
    split; [exact Hp|]. split; [exact Hnp|]. intros [data E].
    destruct Hfile as [Hfile|Hfile]; rewrite Hfile in E; [|discriminate].
    apply Hnp. unfold present. rewrite E. by eexists.
  - intros i Hi Hnot.
    destruct (Hdone i Hi) as [Hs|Hp].
    + intros (e & Hown & He)%list_elem_of_fmap. apply Hnot.
      apply file_name_inj in Hown. subst i. apply list_elem_of_fmap_2, He.
    + left. apply skipped_iff_present; assumption.
    + right. exact Hp.
  - rewrite length_planned in *. lia.
  - intros i Hi Hp. apply Hframe. intros x Hx Hns E.
    apply file_name_inj in E. subst x. apply Hns, skipped_iff_present; assumption.
  - intros i Hi. unfold new_requests. rewrite Hreq, drop_app_length, Hnew. split.
    + intros (x & Hx & Hns & E). apply chunk_request_inj in E. subst x.
      rewrite <- skipped_iff_present; assumption.
    + intros Hnp. exists i. rewrite skipped_iff_present by exact Hi.
      split; [exact Hi|]. split; [exact Hnp|reflexivity].
Qed.

(** In every outcome, the chunks found on disk were left alone. *)
Lemma found_chunks_not_requested (w : world) :
  ∃ w', final_world (main w) = Some w'
        ∧ ∀ i, i ∈ planned → present w (file_name i) →
               chunk_request i ∉ new_requests w w'.
Proof.
  pose proof (locations_main_ledger w) as H.
  assert (Hsafe : ∀ w',
            only_missing_requested chunk_request (λ i, i ∈ found_on_disk w)
              planned w w' →
            ∀ i, i ∈ planned → present w (file_name i) →
                 chunk_request i ∉ new_requests w w').
  { intros w' (new & Hreq & Hnew) i Hi Hp. unfold new_requests.
    rewrite Hreq, drop_app_length. intros (x & Hx & Hns & E)%Hnew.
    apply chunk_request_inj in E. subst x.
    apply Hns, skipped_iff_present; assumption. }
  destruct (main w) as [st w'|e w'|]; [| |destruct H]; exists w';
    (split; [reflexivity|]); apply Hsafe.
  - eapply ledger_after_only_missing, H.
  - exact H.
Qed.

(** A loop over chunks that are all on disk only counts. *)
Lemma main_loop_all_skipped n ex (l : list Z) successful failed (w : world) :
  (∀ i, i ∈ l → i ∈ ex) →
  for_each l (main_body n ex) (successful, failed) w
  = Ret (successful + Z.of_nat (length l), failed) w.
Proof.
  revert successful. induction l as [|i l IH]; intros successful Hall;
    cbn [for_each length].
  { unfold ret. do 2 f_equal. lia. }
  unfold bind.
  rewrite locations_skip by (apply Hall; rewrite elem_of_cons; left; reflexivity).
  rewrite IH by (intros j Hj; apply Hall; rewrite elem_of_cons; right; exact Hj).
  do 2 f_equal. lia.
Qed.

End LocationsRun.

(** ** The run controller of fetch_monthly_data.py *)

Section MonthlyLedger.
Import Py Io Monthly Observed.

Lemma dict_set_not_nil k x fields : dict_set k x fields ≠ [].
Proof. destruct fields as [|[k' v] rest]; simpl; [done|]. by destruct (String.eqb k' k). Qed.

Lemma dict_lookup_set k x fields : dict_lookup k (dict_set k x fields) = Some x.
Proof.
  induction fields as [|[k' v] rest IH]; simpl.
  - by rewrite String.eqb_refl.
  - destruct (String.eqb k' k) eqn:E; simpl; by rewrite E.
Qed.

Lemma dict_set_fresh k x fields :
  dict_lookup k fields = None → dict_set k x fields = fields ++ [(k, x)].
Proof.
  induction fields as [|[k' v] rest IH]; simpl; [done|].
  destruct (String.eqb k' k); [done|]. intros H. by rewrite IH.
Qed.

(** What the executor hands back is a dict that carries [results]. *)
Lemma record_count_normalized adjusted fields :
  record_count (JObj (dict_set "results" (JArr adjusted) fields))
  = inr (Z.of_nat (length adjusted)).
Proof.
  unfold record_count, truthy.
  pose proof (dict_set_not_nil "results" (JArr adjusted) fields) as Hne.
  destruct (dict_set "results" (JArr adjusted) fields) eqn:E; [done|].
  rewrite <- E. unfold contains, get. rewrite dict_lookup_set.
  rewrite bool_decide_true by (by eexists). reflexivity.
Qed.

(** The three ways a call of the executor can end. *)
Lemma monthly_executor_cases start_date end_date (w : world) :
  let w1 := {| net := net w;
               requests := requests w ++ [Request start_date end_date];
               slept := slept w; disk := disk w; writes := writes w;
               files := files w |} in
  (∃ msg, make_api_request start_date end_date w = Ret (JNull, Some msg) w1)
  ∨ (∃ adjusted fields,
       make_api_request start_date end_date w
       = Ret (JObj (dict_set "results" (JArr adjusted) fields), None) w1)
  ∨ (∃ e, make_api_request start_date end_date w = Raise e w1).
Proof.
  intros w1. subst w1. unfold make_api_request. run_step.
  destruct (net w _ _) as [str_e|status_code str_http_error c]; simpl.
  { left. by eexists. }
  destruct (is_error_status status_code); simpl.
  { left. by eexists. }
  destruct c as [|[|] str_e|data]; simpl; try (left; by eexists).
  destruct data as [| | | | |fields]; simpl; try (right; right; by eexists).
  destruct (iter _) as [e|items]; simpl; [right; right; by eexists|].
  destruct (adjust_items items) as [e|adjusted]; simpl;
    [right; right; by eexists|].
  right. left. by eexists _, _.
Qed.

Lemma monthly_skip n ex entry successful failed (w : world) :
  monthly_key entry ∈ ex →
  main_body n ex entry (successful, failed) w = Ret (successful + 1, failed) w.
Proof.
  intros Hin. destruct entry as [i range_info]. unfold main_body.
  by rewrite bool_decide_true.
Qed.

(** The turn of a window whose file was not found. *)
Lemma monthly_turn n ex entry successful failed (w : world) :
  monthly_key entry ∉ ex →
  turn id (monthly_request entry) (monthly_key entry) successful failed w
    (main_body n ex entry (successful, failed) w).
Proof.
  intros Hnot. destruct entry as [i range_info]. unfold main_body.
  rewrite bool_decide_false by done.
  assert (Hfetch : ∀ w1 : world,
    requests w1 = requests w ++ [monthly_request (i, range_info)] →
    fetched (monthly_request (i, range_info)) w w1).
  { intros w1 Hreq. exists 1%nat. split; [lia|exact Hreq]. }
  unfold mbind at 1, M_bind, bind.
  destruct (monthly_executor_cases (start_date range_info) (end_date range_info) w)
    as [[msg E]|[(adjusted & fields & E)|[e E]]]; rewrite E; clear E.
  - run_step.
    destruct (i <? n); simpl;
      (eapply turn_failed; [reflexivity|by apply Hfetch|by left]).
  - unfold save_data, write_file. run_step.
    rewrite record_count_normalized.
    pose proof (dict_set_not_nil "results" (JArr adjusted) fields) as Hne.
    destruct (dict_set "results" (JArr adjusted) fields) eqn:Eset; [done|].
    rewrite <- Eset. simpl.
    destruct (disk w (length (writes w))) as [|[|]]; simpl;
      destruct (i <? n); simpl;
      first [ eapply turn_saved; [by apply Hfetch|reflexivity]
            | eapply turn_failed; [reflexivity|by apply Hfetch|simpl; auto] ].
  - eapply turn_raised. by apply Hfetch.
Qed.

End MonthlyLedger.

Section MonthlyRun.
Import Py Io Monthly Observed.

Local Abbreviation planned_names := monthly_planned_names.
Local Abbreviation entries := monthly_entries.

Lemma create_date_ranges_planned : create_date_ranges = Some monthly_planned.
Proof. vm_compute. reflexivity. Qed.

Lemma entries_names : monthly_key <$> entries = planned_names.
Proof. vm_compute. reflexivity. Qed.

Lemma entries_length : length entries = 9%nat.
Proof. vm_compute. reflexivity. Qed.

Lemma NoDup_planned_names : NoDup planned_names.
Proof. apply (bool_decide_unpack _). vm_compute. exact I. Qed.

Lemma planned_names_pattern name :
  name ∈ planned_names → monthly_pattern name = true.
Proof.
  revert name. apply Forall_forall. apply (bool_decide_unpack _).
  vm_compute. exact I.
Qed.

Lemma entry_in_plan entry : entry ∈ entries → monthly_key entry ∈ planned_names.
Proof. intros H. rewrite <- entries_names. apply list_elem_of_fmap_2, H. Qed.

Lemma monthly_check_existing_files_spec (w : world) :
  check_existing_files w = Ret (monthly_found w) w.
Proof. reflexivity. Qed.

Lemma elem_of_monthly_found (w : world) name :
  name ∈ monthly_found w ↔ present w name ∧ monthly_pattern name = true.
Proof.
  unfold monthly_found, present.
  rewrite list_elem_of_filter, elem_of_elements, elem_of_dom.
  rewrite Is_true_true. tauto.
Qed.

Lemma monthly_skipped_iff_present (w : world) name :
  name ∈ planned_names → (name ∈ monthly_found w ↔ present w name).
Proof.
  intros Hn. rewrite elem_of_monthly_found.
  pose proof (planned_names_pattern name Hn). tauto.
Qed.

Lemma monthly_main_unfold (w : world) :
  main w
  = match main_loop monthly_planned (monthly_found w) w with
    | Ret r w' => Ret r w'
    | Raise e w' => Raise e w'
    | OutOfFuel => OutOfFuel
    end.
Proof.
  unfold main. unfold mbind at 1, M_bind, bind.
  rewrite monthly_check_existing_files_spec, create_date_ranges_planned.
  unfold mbind at 1, M_bind, bind.
  destruct (main_loop monthly_planned (monthly_found w) w) as [r w'|e w'|];
    reflexivity.
Qed.

(** The ledger of a whole run. *)
Lemma monthly_main_ledger (w : world) :
  match main w with
  | Ret st w' =>
      ledger_after monthly_key monthly_request id
        (λ entry, monthly_key entry ∈ monthly_found w) entries (0, []) w st w'
  | Raise _ w' =>
      only_missing_requested monthly_request
        (λ entry, monthly_key entry ∈ monthly_found w) entries w w'
  | OutOfFuel => False
  end.
Proof.
  rewrite monthly_main_unfold. unfold main_loop. fold monthly_entries.
  assert (Hkeys : NoDup (monthly_key <$> entries)).
  { rewrite entries_names. apply NoDup_planned_names. }
  pose proof (for_each_ledger monthly_key monthly_request id
                (λ entry, monthly_key entry ∈ monthly_found w)
                (main_body (Z.of_nat (length monthly_planned)) (monthly_found w))
                (λ entry, _)
                (λ entry s f w0, monthly_skip _ (monthly_found w) entry s f w0)
                (λ entry s f w0, monthly_turn _ (monthly_found w) entry s f w0)
                entries (0, []) w Hkeys) as H.
  destruct (for_each entries _ _ w); exact H.
Qed.

Lemma monthly_request_inj x y :
  x ∈ entries → y ∈ entries → monthly_request x = monthly_request y →
  monthly_key x = monthly_key y.
Proof.
  intros Hx Hy.
  assert (H : Forall (λ x, Forall (λ y, monthly_request x = monthly_request y →
                                        monthly_key x = monthly_key y) entries)
                entries).
  { apply (bool_decide_unpack _). vm_compute. exact I. }
  rewrite Forall_forall in H. specialize (H x Hx).
  rewrite Forall_forall in H. exact (H y Hy).
Qed.

(** What the ledger of a finished run says, window by window. *)
Lemma monthly_run_facts (w : world) st w' :
  main w = Ret st w' →
  NoDup st.2
  ∧ (∀ name, name ∈ st.2 →
       name ∈ planned_names ∧ ¬ present w name ∧ ¬ persisted w' name)
  ∧ (∀ name, name ∈ planned_names → name ∉ st.2 →
       present w name ∨ persisted w' name)
  ∧ st.1 + Z.of_nat (length st.2) = Z.of_nat (length planned_names)
  ∧ (∀ name, name ∈ planned_names → present w name →
       files w' !! name = files w !! name)
  ∧ (∀ entry, entry ∈ entries →
       monthly_request entry ∈ new_requests w w'
       ↔ ¬ present w (monthly_key entry)).
Proof.
  intros Hmain. pose proof (monthly_main_ledger w) as H. rewrite Hmain in H.
  destruct H as (fnew & Hf & Hnd & Hcount & Hfail & Hdone & Hframe
                 & new & Hreq & Hnew).
  cbn [fst snd app] in Hf, Hcount. rewrite Hf. rewrite list_fmap_id in Hnd.
  assert (Hentry : ∀ name, name ∈ fnew →
            name ∈ planned_names ∧ ¬ present w name
            ∧ (files w' !! name = files w !! name
               ∨ files w' !! name = Some Partial)).
  { intros name He.
    destruct (Hfail name He) as (x & Hx & Hns & Hown & Hfile).
    unfold id in Hown. rewrite Hown.
    pose proof (entry_in_plan x Hx) as Hp.
    rewrite monthly_skipped_iff_present in Hns by exact Hp.
    split; [exact Hp|]. split; [exact Hns|exact Hfile]. }
  split; [|split; [|split; [|split; [|split]]]].
  - exact Hnd.
  - intros name Hi. destruct (Hentry name Hi) as (Hp & Hnp & Hfile).
    split; [exact Hp|]. split; [exact Hnp|]. intros [data E].
    destruct Hfile as [Hfile|Hfile]; rewrite Hfile in E; [|discriminate].
    apply Hnp. unfold present. rewrite E. by eexists.
  - intros name Hi Hnot. rewrite <- entries_names in Hi.
    apply list_elem_of_fmap in Hi as (x & -> & Hx).
    pose proof (entry_in_plan x Hx) as Hp.
    destruct (Hdone x Hx) as [Hs|Hpers].
    + rewrite list_fmap_id. exact Hnot.
    + left. apply monthly_skipped_iff_present; assumption.
    + right. exact Hpers.
  - replace (length planned_names) with (length entries)
      by (rewrite <- entries_names; symmetry; apply length_fmap).
    lia.
  - intros name Hi Hp. rewrite <- entries_names in Hi.
    apply list_elem_of_fmap in Hi as (x & -> & Hx).
    apply Hframe. intros y Hy Hns E. apply Hns. rewrite <- E.
    apply monthly_skipped_iff_present; [apply entry_in_plan, Hx|exact Hp].
  - intros x Hx. unfold new_requests. rewrite Hreq, drop_app_length, Hnew.
    pose proof (entry_in_plan x Hx) as Hp. split.
    + intros (y & Hy & Hns & E). apply monthly_request_inj in E; [|done|done].
      rewrite E. rewrite <- monthly_skipped_iff_present; [exact Hns|].
      apply entry_in_plan, Hy.
    + intros Hnp. exists x. rewrite monthly_skipped_iff_present by exact Hp.
      split; [exact Hx|]. split; [exact Hnp|reflexivity].
Qed.

(** A loop over windows that are all on disk only counts. *)
Lemma monthly_loop_all_skipped n ex (l : list (Z * range_info))
    successful failed (w : world) :
  (∀ entry, entry ∈ l → monthly_key entry ∈ ex) →
  for_each l (main_body n ex) (successful, failed) w
  = Ret (successful + Z.of_nat (length l), failed) w.
Proof.
  revert successful. induction l as [|x l IH]; intros successful Hall;
    cbn [for_each length].
  { unfold ret. do 2 f_equal. lia. }
  unfold bind.
  rewrite monthly_skip by (apply Hall; rewrite elem_of_cons; left; reflexivity).
  rewrite IH by (intros j Hj; apply Hall; rewrite elem_of_cons; right; exact Hj).
  do 2 f_equal. lia.
Qed.

End MonthlyRun.

(** ** Resuming a run *)

Section FilterFacts.
Context {A : Type}.
Variables P Q : A → Prop.
Context `{!∀ x, Decision (P x), !∀ x, Decision (Q x)}.

Lemma filter_iff_on (l : list A) :
  (∀ x, x ∈ l → P x ↔ Q x) → filter P l = filter Q l.
Proof.
  induction l as [|x l IH]; intros Hiff; [reflexivity|].
  assert (Hx : P x ↔ Q x) by (apply Hiff; rewrite elem_of_cons; by left).
  assert (Hl : filter P l = filter Q l).
  { apply IH. intros y Hy. apply Hiff. rewrite elem_of_cons. by right. }
  rewrite !filter_cons, Hl.
  destruct (decide (P x)), (decide (Q x)); tauto || reflexivity.
Qed.

Lemma length_filter_complement (l : list A) :
  (length (filter P l) + length (filter (λ x, ¬ P x) l) = length l)%nat.
Proof.
  rewrite <- length_app. apply Permutation_length, filter_app_complement.
Qed.

End FilterFacts.

(** C6. make_requests.py never requests a planned chunk whose file is
    already in the data directory, however the run ends; when the run reaches
    its report, those chunks are absent from the failed list and counted as
    successful, the chunks requested are exactly the planned chunks with no
    file, and so, with N of the M = 39 files present at the start, M - N
    chunks are fetched. *)
Theorem resume_skip_and_partial_run (w : Locations.world) :
  ∃ w',
    Observed.final_world (Locations.main w) = Some w'
    ∧ (∀ i, i ∈ Observed.planned →
            Observed.present w (Locations.file_name i) →
            Observed.chunk_request i ∉ Observed.new_requests w w')
    ∧ ∀ st, Locations.main w = Io.Ret st w' →
        let on_disk := filter (λ i, Observed.present w (Locations.file_name i))
                         Observed.planned in
        let requested :=
          filter (λ i, Observed.chunk_request i ∈ Observed.new_requests w w')
            Observed.planned in
        (∀ i, i ∈ on_disk → i ∉ st.2.*1)
        ∧ Z.of_nat (length on_disk) ≤ st.1
        ∧ (∀ i, i ∈ Observed.planned →
             i ∈ requested ↔ ¬ Observed.present w (Locations.file_name i))
        ∧ (length requested + length on_disk = length Observed.planned)%nat
        ∧ length Observed.planned = 39%nat.
Proof.
  destruct (found_chunks_not_requested w) as (w' & Hfin & Hsafe).
  exists w'. split; [exact Hfin|]. split; [exact Hsafe|].
  intros st Hmain on_disk requested.
  destruct (locations_run_facts w st w' Hmain)
    as (Hnd & Hfailed & _ & Hcount & _ & Hreq).
  assert (Hsame : requested
                  = filter (λ i, ¬ Observed.present w (Locations.file_name i))
                      Observed.planned).
  { apply filter_iff_on. exact Hreq. }
  assert (Hsum : (length on_disk + length requested
                  = length Observed.planned)%nat).
  { rewrite Hsame. apply length_filter_complement. }
  assert (Hfew : (length st.2 ≤ length requested)%nat).
  { rewrite <- (length_fmap fst st.2). apply submseteq_length.
    apply NoDup_submseteq; [exact Hnd|]. intros i Hi.
    destruct (Hfailed i Hi) as (Hp & Hnp & _).
    rewrite Hsame. apply list_elem_of_filter. split; [exact Hnp|exact Hp]. }
  split; [|split; [|split; [|split]]].
  - intros i [Hp Hi]%list_elem_of_filter Hin.
    destruct (Hfailed i Hin) as (_ & Hnp & _). exact (Hnp Hp).
  - lia.
  - intros i Hi. subst requested. rewrite list_elem_of_filter.
    rewrite (Hreq i Hi). tauto.
  - lia.
  - apply length_planned.
Qed.

(** ** Counting the chunks of a report *)

Section Counting.
Context `{EqDecision A}.

(** Taking [k] distinct elements out of a list without repetition leaves
    [length l - length k] of them. *)
Lemma length_filter_not_in (l k : list A) :
  NoDup l → NoDup k → (∀ x, x ∈ k → x ∈ l) →
  (length (filter (λ x, x ∉ k) l) + length k = length l)%nat.
Proof.
  intros Hl Hk Hsub.
  rewrite <- (length_filter_complement (λ x, x ∉ k) l). f_equal.
  apply Permutation_length, NoDup_Permutation.
  - exact Hk.
  - apply NoDup_filter, Hl.
  - intros x. rewrite list_elem_of_filter. split.
    + intros Hx. split; [tauto|apply Hsub, Hx].
    + intros [Hx _]. destruct (decide (x ∈ k)); tauto.
Qed.

End Counting.

(** ** Running twice *)

Section SecondRun.
Import Py Io Observed.

(** A run that found or saved every chunk leaves them all on disk. *)
Lemma locations_all_present (w w1 : Locations.world) successful :
  Locations.main w = Ret (successful, []) w1 →
  successful = 39
  ∧ ∀ i, i ∈ planned → present w1 (Locations.file_name i).
Proof.
  intros Hmain.
  destruct (locations_run_facts w _ w1 Hmain)
    as (_ & _ & Hdone & Hcount & Hkept & _).
  cbn [fst snd length fmap list_fmap] in *.
  rewrite length_planned in Hcount. split; [lia|].
  intros i Hi. destruct (Hdone i Hi) as [Hp|[data Hw]].
  - intros Hin. by apply elem_of_nil in Hin.
  - unfold present. rewrite (Hkept i Hi Hp). exact Hp.
  - unfold present. rewrite Hw. by eexists.
Qed.

(** With every planned file on disk, a run only counts. *)
Lemma locations_rerun (w2 : Locations.world) :
  (∀ i, i ∈ planned → present w2 (Locations.file_name i)) →
  Locations.main w2 = Ret (39, []) w2.
Proof.
  intros Hall. rewrite main_unfold. unfold Locations.main_loop.
  rewrite main_loop_all_skipped; [reflexivity|].
  intros i Hi. apply skipped_iff_present; [exact Hi|]. apply Hall, Hi.
Qed.

Lemma monthly_all_present (wm wm1 : Monthly.world) successful :
  Monthly.main wm = Ret (successful, []) wm1 →
  successful = 9
  ∧ ∀ name, name ∈ monthly_planned_names → present wm1 name.
Proof.
  intros Hmain.
  destruct (monthly_run_facts wm _ wm1 Hmain)
    as (_ & _ & Hdone & Hcount & Hkept & _).
  cbn [fst snd length] in *.
  change (length monthly_planned_names) with 9%nat in Hcount. split; [lia|].
  intros name Hi. destruct (Hdone name Hi) as [Hp|[data Hw]].
  - intros Hin. by apply elem_of_nil in Hin.
  - unfold present. rewrite (Hkept name Hi Hp). exact Hp.
  - unfold present. rewrite Hw. by eexists.
Qed.

Lemma monthly_rerun (wm2 : Monthly.world) :
  (∀ name, name ∈ monthly_planned_names → present wm2 name) →
  Monthly.main wm2 = Ret (9, []) wm2.
Proof.
  intros Hall. rewrite monthly_main_unfold. unfold Monthly.main_loop.
  rewrite monthly_loop_all_skipped; [reflexivity|].
  intros entry Hin. apply monthly_skipped_iff_present.
  - apply entry_in_plan, Hin.
  - apply Hall, entry_in_plan, Hin.
Qed.

End SecondRun.

(** C9. After a run that reported every planned chunk as done (an empty
    failed list), a second run over the directory it left sends no request,
    sleeps and writes nothing, and reports the same count with an empty
    failed list: 39 chunks for make_requests.py, 9 windows for
    fetch_monthly_data.py.  The server and the disk of the second run may
    behave in any way. *)
Theorem resume_idempotence
    (w w1 w2 : Locations.world) (successful : Z)
    (wm wm1 wm2 : Monthly.world) (successful_m : Z) :
  Locations.main w = Io.Ret (successful, []) w1 →
  Io.files w2 = Io.files w1 →
  Monthly.main wm = Io.Ret (successful_m, []) wm1 →
  Io.files wm2 = Io.files wm1 →
  (Locations.main w2 = Io.Ret (successful, []) w2
   ∧ Observed.new_requests w2 w2 = []
   ∧ successful = Z.of_nat (length Observed.planned))
  ∧ (Monthly.main wm2 = Io.Ret (successful_m, []) wm2
     ∧ Observed.new_requests wm2 wm2 = []
     ∧ successful_m = Z.of_nat (length Observed.monthly_planned_names)).
Proof.
  intros Hmain Hfiles Hmainm Hfilesm. split.
  - destruct (locations_all_present w w1 successful Hmain) as [-> Hall].
    split; [|split; [apply drop_all|reflexivity]].
    apply locations_rerun. intros i Hi. unfold Observed.present.
    rewrite Hfiles. apply Hall, Hi.
  - destruct (monthly_all_present wm wm1 successful_m Hmainm) as [-> Hall].
    split; [|split; [apply drop_all|reflexivity]].
    apply monthly_rerun. intros name Hi. unfold Observed.present.
    rewrite Hfilesm. apply Hall, Hi.
Qed.

(** ** Bodies without the expected key *)

Section MissingResults.
Import Py Io Observed.

Lemma decoded_returns depth offset limit retry_count (w : Locations.world) data :
  net w (length (requests w)) (Locations.Request limit offset)
  = Locations.Ok (Locations.Decoded data) →
  Locations.make_api_request_rec (S depth) offset limit retry_count w
  = Ret (data, None)
        {| net := net w;
           requests := requests w ++ [Locations.Request limit offset];
           slept := slept w; disk := disk w; writes := writes w;
           files := files w |}.
Proof. intros E. simpl. run_step. by rewrite E. Qed.

(** make_requests.py: a dict without [results] is a failed chunk. *)
Lemma locations_missing_results n ex i successful failed
    (w : Locations.world) fields :
  i ∉ ex →
  net w (length (requests w)) (chunk_request i)
  = Locations.Ok (Locations.Decoded (JObj fields)) →
  dict_lookup "results" fields = None →
  ∃ w',
    Locations.main_body n ex i (successful, failed) w
    = Ret (successful, failed ++ [(i, "Unknown error")]) w'
    ∧ requests w' = requests w ++ [chunk_request i]
    ∧ writes w' = writes w
    ∧ files w' = files w.
Proof.
  intros Hi Enet Hnone. unfold Locations.main_body.
  rewrite bool_decide_false by exact Hi.
  unfold mbind at 1, M_bind, bind.
  unfold Locations.make_api_request, Locations.call_depth.
  rewrite (decoded_returns _ _ _ _ w (JObj fields)) by exact Enet.
  run_step. rewrite Hnone.
  rewrite bool_decide_false by (by intros [? ?]).
  destruct fields; simpl; destruct (i <? n - 1); simpl;
    eexists; (split; [reflexivity|]); by repeat split.
Qed.

(** fetch_monthly_data.py: such a dict is completed and saved. *)
Lemma monthly_missing_results n ex entry successful failed
    (w : Monthly.world) status_code str_http_error fields :
  monthly_key entry ∉ ex →
  net w (length (requests w)) (monthly_request entry)
  = Monthly.Response status_code str_http_error (Monthly.Json (JObj fields)) →
  Monthly.is_error_status status_code = false →
  dict_lookup "results" fields = None →
  disk w (length (writes w)) = WriteOk →
  ∃ w',
    Monthly.main_body n ex entry (successful, failed) w
    = Ret (successful + 1, failed) w'
    ∧ requests w' = requests w ++ [monthly_request entry]
    ∧ files w'
      = <[monthly_key entry := Written (JObj (fields ++ [("results", JArr [])]))]>
          (files w).
Proof.
  intros Hi Enet Hok Hnone Hdisk. destruct entry as [i range_info].
  unfold Monthly.main_body. rewrite bool_decide_false by exact Hi.
  unfold mbind at 1, M_bind, bind. unfold Monthly.make_api_request.
  unfold monthly_request in Enet. simpl in Enet.
  run_step. rewrite Enet, Hok. simpl. rewrite Hnone. simpl.
  rewrite (dict_set_fresh "results" (JArr []) fields Hnone).
  assert (Hcount : Monthly.record_count (JObj (fields ++ [("results", JArr [])]))
                   = inr 0).
  { rewrite <- (dict_set_fresh "results" (JArr []) fields Hnone).
    apply record_count_normalized. }
  assert (Htruthy : truthy (JObj (fields ++ [("results", JArr [])])) = true).
  { by destruct fields. }
  simpl in Htruthy. rewrite Htruthy. unfold Monthly.save_data, write_file. run_step.
  rewrite Hdisk. cbn -[Monthly.record_count]. rewrite Hcount. simpl.
  destruct (i <? n); simpl; eexists; (split; [reflexivity|]); by repeat split.
Qed.

End MissingResults.

(** C4, as the code has it. When a 2xx body decodes to a dict that has no
    [results] key, make_requests.py enters the chunk in the failed list with
    the text ["Unknown error"], after the one request, and writes nothing;
    fetch_monthly_data.py adds an empty [results] list to the dict, takes
    the call for a success and, the disk permitting, saves the completed
    dict and counts the window. *)
Theorem missing_results_by_path
    (n i successful : Z) (ex : list Z) (failed : list (Z * string))
    (w : Locations.world) (fields : list (string * Py.json))
    (nm successful_m : Z) (exm : list string) (entry : Z * Monthly.range_info)
    (failed_m : list string) (wm : Monthly.world)
    (status_code : Z) (str_http_error : string)
    (fields_m : list (string * Py.json)) :
  i ∉ ex →
  Io.net w (length (Io.requests w)) (Observed.chunk_request i)
  = Locations.Ok (Locations.Decoded (Py.JObj fields)) →
  Py.dict_lookup "results" fields = None →
  Observed.monthly_key entry ∉ exm →
  Io.net wm (length (Io.requests wm)) (Observed.monthly_request entry)
  = Monthly.Response status_code str_http_error (Monthly.Json (Py.JObj fields_m)) →
  Monthly.is_error_status status_code = false →
  Py.dict_lookup "results" fields_m = None →
  Io.disk wm (length (Io.writes wm)) = Io.WriteOk →
  (∃ w',
     Locations.main_body n ex i (successful, failed) w
     = Io.Ret (successful, failed ++ [(i, "Unknown error")]) w'
     ∧ Io.requests w' = Io.requests w ++ [Observed.chunk_request i]
     ∧ Io.writes w' = Io.writes w
     ∧ Io.files w' = Io.files w)
  ∧ (∃ wm',
       Monthly.main_body nm exm entry (successful_m, failed_m) wm
       = Io.Ret (successful_m + 1, failed_m) wm'
       ∧ Io.requests wm' = Io.requests wm ++ [Observed.monthly_request entry]
       ∧ Io.files wm'
         = <[Observed.monthly_key entry
               := Io.Written (Py.JObj (fields_m ++ [("results", Py.JArr [])]))]>
             (Io.files wm)).
Proof.
  intros Hi Enet Hnone Him Enetm Hok Hnonem Hdisk. split.
  - eapply locations_missing_results; eassumption.
  - eapply monthly_missing_results; eassumption.
Qed.

Lemma missing_results_by_path_witness :
  (∃ w',
     Locations.main_body 39 [] 0 (0, [])
       (Observed.fresh
          (λ _ _, Locations.Ok (Locations.Decoded (Py.JObj [("metadata", Py.JNull)])))
          (λ _, Io.WriteOk))
     = Io.Ret (0, [(0, "Unknown error")]) w'
     ∧ Io.files w' = ∅)
  ∧ (∃ wm',
       Monthly.main_body 9 []
         (1, Observed.year_window 2018 10 1938) (0, [])
         (Observed.fresh
            (λ _ _, Monthly.Response 200 "" (Monthly.Json (Py.JObj [])))
            (λ _, Io.WriteOk))
       = Io.Ret (1, []) wm'
       ∧ Io.files wm' !! "FIPS10003_avg_1938_to_1947.json"
         = Some (Io.Written (Py.JObj [("results", Py.JArr [])]))).
Proof.
  destruct (missing_results_by_path 39 0 0 [] []
              (Observed.fresh
                 (λ _ _, Locations.Ok
                           (Locations.Decoded (Py.JObj [("metadata", Py.JNull)])))
                 (λ _, Io.WriteOk))
              [("metadata", Py.JNull)]
              9 0 [] (1, Observed.year_window 2018 10 1938) []
              (Observed.fresh
                 (λ _ _, Monthly.Response 200 "" (Monthly.Json (Py.JObj [])))
                 (λ _, Io.WriteOk))
              200 "" [])
    as [(w' & E & _ & _ & Hfiles) (wm' & Em & _ & Hfilesm)].
  - intros H. by apply elem_of_nil in H.
  - reflexivity.
  - reflexivity.
  - intros H. by apply elem_of_nil in H.
  - reflexivity.
  - reflexivity.
  - reflexivity.
  - reflexivity.
  - split.
    + exists w'. split; [exact E|exact Hfiles].
    + exists wm'. split; [exact Em|]. rewrite Hfilesm. reflexivity.
Defined.

(** C4 fails as written: answered with [{}] for every window,
    fetch_monthly_data.py reports nine successes and no failure, and has
    saved the dict with an empty [results] list. *)
Lemma missing_results_saved_by_monthly :
  let wm := Observed.fresh
              (λ _ _, Monthly.Response 200 "" (Monthly.Json (Py.JObj [])))
              (λ _, Io.WriteOk) in
  ∃ wm',
    Monthly.main wm = Io.Ret (9, []) wm'
    ∧ length (Io.requests wm') = 9%nat
    ∧ Io.files wm' !! "FIPS10003_avg_1938_to_1947.json"
      = Some (Io.Written (Py.JObj [("results", Py.JArr [])])).
Proof.
  intros wm.
  exists (default wm (Observed.final_world (Monthly.main wm))).
  split; [vm_compute; reflexivity|]. split; vm_compute; reflexivity.
Qed.

(** ** Bodies of an unexpected shape *)

(** C7, at inputs where it breaks. A 200 answer whose body is the JSON array
    [[]] makes the executor of fetch_monthly_data.py raise an AttributeError
    that neither [except] clause catches; the exception leaves [main] after
    the first of the nine windows.  A 200 answer whose body is the number
    [5] is returned by the executor of make_requests.py, and the test
    ['results' in data] of [main] then raises a TypeError that ends the run
    after the first of the 39 chunks. *)
Theorem unexpected_body_escapes :
  let wm := Observed.fresh
              (λ _ _, Monthly.Response 200 "" (Monthly.Json (Py.JArr [])))
              (λ _, Io.WriteOk) in
  let w := Observed.fresh
             (λ _ _, Locations.Ok (Locations.Decoded (Py.JNum 5)))
             (λ _, Io.WriteOk) in
  (∃ wm',
     Monthly.make_api_request "1938-01-01" "1947-12-31" wm
     = Io.Raise (Py.AttributeError "object has no attribute 'get'") wm')
  ∧ (∃ wm',
       Monthly.main wm
       = Io.Raise (Py.AttributeError "object has no attribute 'get'") wm'
       ∧ length (Io.requests wm') = 1%nat
       ∧ Io.files wm' = ∅)
  ∧ (∃ w',
       Locations.make_api_request 1 1000 0 w = Io.Ret (Py.JNum 5, None) w')
  ∧ (∃ w',
       Locations.main w
       = Io.Raise (Py.TypeError "argument of type 'int' is not iterable") w'
       ∧ length (Io.requests w') = 1%nat
       ∧ Io.files w' = ∅).
Proof.
  intros wm w. split; [|split; [|split]].
  - eexists. reflexivity.
  - exists (default wm (Observed.final_world (Monthly.main wm))).
    split; [vm_compute; reflexivity|]. split; vm_compute; reflexivity.
  - eexists. reflexivity.
  - exists (default w (Observed.final_world (Locations.main w))).
    split; [vm_compute; reflexivity|]. split; vm_compute; reflexivity.
Qed.

(** ** The theorems at work on sample runs *)

Lemma shared_retry_budget_witness :
  ∃ r w',
    Locations.make_api_request 1 1000 0
      (Observed.fresh (λ k _, if (k <? 2)%nat
                              then Locations.HTTPError 429 "Too Many Requests"
                              else Locations.OtherError "timed out")
         (λ _, Io.WriteOk))
    = Io.Ret r w'
    ∧ (1 ≤ length (Io.requests w') ≤ 4)%nat.
Proof.
  destruct (shared_retry_budget 1 1000
              (Observed.fresh (λ k _, if (k <? 2)%nat
                                      then Locations.HTTPError 429 "Too Many Requests"
                                      else Locations.OtherError "timed out")
                 (λ _, Io.WriteOk)))
    as (r & w' & k & E & Hk & Hreq & _).
  exists r, w'. split; [exact E|]. rewrite Hreq, length_app, length_replicate.
  simpl in *. lia.
Defined.

Lemma resume_skip_and_partial_run_witness :
  let w := {| Io.net := λ _ _, Locations.Ok
                               (Locations.Decoded (Py.JObj [("results", Py.JArr [])]));
              Io.requests := []; Io.slept := [];
              Io.disk := λ _, Io.WriteOk; Io.writes := [];
              Io.files := {[ "locations_0.json" := Io.Partial ]} |} in
  ∃ w',
    Observed.final_world (Locations.main w) = Some w'
    ∧ Observed.chunk_request 0 ∉ Observed.new_requests w w'.
Proof.
  intros w.
  destruct (resume_skip_and_partial_run w) as (w' & Hfin & Hsafe & _).
  exists w'. split; [exact Hfin|]. apply Hsafe.
  - apply elem_of_planned. lia.
  - unfold Observed.present. vm_compute. eexists. reflexivity.
Defined.

Lemma resume_idempotence_witness :
  let w := Observed.fresh
             (λ _ _, Locations.Ok
                       (Locations.Decoded (Py.JObj [("results", Py.JArr [])])))
             (λ _, Io.WriteOk) in
  let wm := Observed.fresh
              (λ _ _, Monthly.Response 200 ""
                        (Monthly.Json (Py.JObj [("results", Py.JArr [])])))
              (λ _, Io.WriteOk) in
  let w1 := default w (Observed.final_world (Locations.main w)) in
  let wm1 := default wm (Observed.final_world (Monthly.main wm)) in
  Locations.main w1 = Io.Ret (39, []) w1
  ∧ Monthly.main wm1 = Io.Ret (9, []) wm1.
Proof.
  intros w wm w1 wm1.
  destruct (resume_idempotence w w1 w1 39 wm wm1 wm1 9)
    as [(E & _) (Em & _)].
  - vm_compute. reflexivity.
  - reflexivity.
  - vm_compute. reflexivity.
  - reflexivity.
  - split; [exact E|exact Em].
Defined.

(** * Further properties of the two scripts *)

(** ** More on the retrying executor *)

Section ExecutorTraces.
Import Py Io Locations Observed Traces.

Lemma retry_waits_S (rq : request) (w : world) retry_count j secs :
  retry_waits
    {| net := net w; requests := requests w ++ [rq]; slept := secs;
       disk := disk w; writes := writes w; files := files w |}
    rq (retry_count + 1) j
  = (λ k : nat, retry_wait (retry_count + Z.of_nat k)
                  (net w (length (requests w) + k)%nat rq)) <$> seq 1 j.
Proof.
  unfold retry_waits. simpl. rewrite <- (fmap_S_seq 0), <- list_fmap_compose.
  apply list_fmap_ext. intros _ k _. simpl. rewrite length_app. simpl.
  f_equal; [lia|]. f_equal. lia.
Qed.

Variables offset limit : Z.
Let rq := Request limit offset.

(** After [j] transient failures within the budget, a decodable answer is
    handed back as it is. *)
Lemma transient_then_decoded (j : nat) depth retry_count (w : world) data :
  retry_count + Z.of_nat j ≤ MAX_RETRIES →
  (j < depth)%nat →
  (∀ k, (k < j)%nat → transient (net w (length (requests w) + k)%nat rq) = true) →
  net w (length (requests w) + j)%nat rq = Ok (Decoded data) →
  ∃ w',
    make_api_request_rec depth offset limit retry_count w = Ret (data, None) w'
    ∧ requests w' = requests w ++ replicate (S j) rq
    ∧ slept w' = slept w ++ retry_waits w rq retry_count j
    ∧ same_store w w'.
Proof.
  subst rq. revert depth retry_count w.
  induction j as [|j IH]; intros depth retry_count w Hbudget Hdepth Htr Hok.
  { destruct depth as [|depth]; [lia|]. rewrite Nat.add_0_r in Hok.
    rewrite (decoded_returns depth offset limit retry_count w data Hok).
    eexists. split; [reflexivity|]. simpl. rewrite app_nil_r. by repeat split. }
  destruct depth as [|depth]; [lia|].
  assert (Hlt : retry_count < MAX_RETRIES) by lia.
  assert (Hrec : ∀ secs,
    secs = retry_wait retry_count
             (net w (length (requests w)) (Request limit offset)) →
    ∃ w',
      make_api_request_rec depth offset limit (retry_count + 1)
        {| net := net w; requests := requests w ++ [Request limit offset];
           slept := slept w ++ [secs]; disk := disk w;
           writes := writes w; files := files w |}
      = Ret (data, None) w'
      ∧ requests w' = requests w ++ replicate (S (S j)) (Request limit offset)
      ∧ slept w' = slept w ++ retry_waits w (Request limit offset) retry_count (S j)
      ∧ same_store w w').
  { intros secs Hsecs.
    edestruct (IH depth (retry_count + 1)) as (w' & E & Hreq & Hsl & Hs);
      [| | | |exists w'; split; [exact E|]].
    - lia.
    - lia.
    - simpl. intros k Hk. rewrite length_app. simpl.
      replace (length (requests w) + 1 + k)%nat
        with (length (requests w) + S k)%nat by lia.
      apply Htr. lia.
    - simpl. rewrite length_app. simpl.
      replace (length (requests w) + 1 + j)%nat
        with (length (requests w) + S j)%nat by lia.
      exact Hok.
    - split; [|split; [|exact Hs]].
      + rewrite Hreq. simpl. by rewrite <- app_assoc.
      + rewrite Hsl. simpl. rewrite <- app_assoc. f_equal.
        rewrite retry_waits_S. unfold retry_waits.
        change (seq 0 (S j)) with (0%nat :: seq 1 j). rewrite fmap_cons.
        simpl. rewrite Nat.add_0_r, Z.add_0_r. by rewrite Hsecs. }
  pose proof (Htr 0%nat ltac:(lia)) as Hnow. rewrite Nat.add_0_r in Hnow.
  simpl. run_step.
  destruct (net w (length (requests w)) _) as [[d|e]|code reason|e] eqn:Enet;
    run_step; simpl in Hnow; try discriminate.
  - destruct (Z.ltb_spec retry_count MAX_RETRIES); [|lia]. by apply Hrec.
  - destruct (code =? 503) eqn:E503.
    + destruct (Z.ltb_spec retry_count MAX_RETRIES); [|lia]. apply Hrec.
      simpl. by rewrite E503.
    + destruct (code =? 429) eqn:E429; [|discriminate].
      destruct (Z.ltb_spec retry_count MAX_RETRIES); [|lia]. apply Hrec.
      simpl. by rewrite E503, E429.
  - destruct (Z.ltb_spec retry_count MAX_RETRIES); [|lia]. by apply Hrec.
Qed.

(** The pauses of a call that uses up its budget: one per retry, and one
    more, of no use, when the last answer is a 429. *)
Lemma exhausted_waits depth retry_count (w : world) :
  (Z.to_nat (MAX_RETRIES - retry_count) < depth)%nat →
  (∀ k, (length (requests w) ≤ k)%nat → transient (net w k rq) = true) →
  ∃ r w',
    make_api_request_rec depth offset limit retry_count w = Ret r w'
    ∧ slept w'
      = slept w
        ++ retry_waits w rq retry_count (Z.to_nat (MAX_RETRIES - retry_count))
        ++ (if rate_limited
                 (net w (length (requests w)
                         + Z.to_nat (MAX_RETRIES - retry_count))%nat rq)
            then [30] else []).
Proof.
  subst rq. revert retry_count w.
  induction depth as [|depth IH]; intros retry_count w Hd Htr; [lia|].
  assert (Hrec : retry_count < MAX_RETRIES → ∀ secs,
    secs = retry_wait retry_count
             (net w (length (requests w)) (Request limit offset)) →
    ∃ r w',
      make_api_request_rec depth offset limit (retry_count + 1)
        {| net := net w; requests := requests w ++ [Request limit offset];
           slept := slept w ++ [secs]; disk := disk w;
           writes := writes w; files := files w |}
      = Ret r w'
      ∧ slept w'
        = slept w
          ++ retry_waits w (Request limit offset) retry_count
               (Z.to_nat (MAX_RETRIES - retry_count))
          ++ (if rate_limited
                   (net w (length (requests w)
                           + Z.to_nat (MAX_RETRIES - retry_count))%nat
                      (Request limit offset))
              then [30] else [])).
  { intros Hlt secs Hsecs.
    edestruct (IH (retry_count + 1)) as (r & w' & E & Hsl);
      [| |exists r, w'; split; [exact E|]].
    - lia.
    - simpl. intros k Hk. apply Htr. rewrite length_app in Hk. simpl in Hk. lia.
    - rewrite Hsl. simpl. rewrite length_app. simpl.
      replace (Z.to_nat (MAX_RETRIES - retry_count))
        with (S (Z.to_nat (MAX_RETRIES - (retry_count + 1)))) by lia.
      replace (length (requests w) + 1
               + Z.to_nat (MAX_RETRIES - (retry_count + 1)))%nat
        with (length (requests w)
              + S (Z.to_nat (MAX_RETRIES - (retry_count + 1))))%nat by lia.
      rewrite <- app_assoc. f_equal. rewrite retry_waits_S. unfold retry_waits.
      change (seq 0 (S ?n)) with (0%nat :: seq 1 n). rewrite fmap_cons.
      simpl. rewrite Nat.add_0_r, Z.add_0_r. by rewrite Hsecs. }
  assert (Hzero : MAX_RETRIES ≤ retry_count →
    Z.to_nat (MAX_RETRIES - retry_count) = 0%nat) by lia.
  pose proof (Htr (length (requests w)) ltac:(lia)) as Hnow.
  simpl. run_step.
  destruct (net w (length (requests w)) _) as [[d|e]|code reason|e] eqn:Enet;
    run_step; simpl in Hnow; try discriminate.
  - destruct (Z.ltb_spec retry_count MAX_RETRIES); [by apply Hrec|].
    rewrite Hzero, Nat.add_0_r, Enet by done. simpl.
    eexists _, _. split; [reflexivity|]. simpl. by rewrite app_nil_r.
  - destruct (code =? 503) eqn:E503.
    + destruct (Z.ltb_spec retry_count MAX_RETRIES).
      * apply Hrec; [done|]. simpl. by rewrite E503.
      * rewrite Hzero, Nat.add_0_r, Enet by done. simpl. rewrite E503. simpl.
        eexists _, _. split; [reflexivity|]. simpl. by rewrite app_nil_r.
    + destruct (code =? 429) eqn:E429; [|discriminate].
      destruct (Z.ltb_spec retry_count MAX_RETRIES).
      * apply Hrec; [done|]. simpl. by rewrite E503, E429.
      * rewrite Hzero, Nat.add_0_r, Enet by done. simpl. rewrite E503, E429.
        simpl. eexists _, _. split; reflexivity.
  - destruct (Z.ltb_spec retry_count MAX_RETRIES); [by apply Hrec|].
    rewrite Hzero, Nat.add_0_r, Enet by done. simpl.
    eexists _, _. split; [reflexivity|]. simpl. by rewrite app_nil_r.
Qed.

(** An error never comes with data and is never the empty text; without an
    error, the data is the body of the last answer. *)
Lemma executor_outcome_shape depth retry_count (w : world) :
  (Z.to_nat (MAX_RETRIES - retry_count) < depth)%nat →
  ∃ data error w' k,
    make_api_request_rec depth offset limit retry_count w = Ret (data, error) w'
    ∧ requests w' = requests w ++ replicate (S k) rq
    ∧ match error with
      | Some msg => data = JNull ∧ msg ≠ ""
      | None => net w (length (requests w) + k)%nat rq = Ok (Decoded data)
      end.
Proof.
  subst rq. revert retry_count w.
  induction depth as [|depth IH]; intros retry_count w Hd; [lia|].
  assert (Hrec : retry_count < MAX_RETRIES → ∀ secs,
    ∃ data error w' k,
      make_api_request_rec depth offset limit (retry_count + 1)
        {| net := net w; requests := requests w ++ [Request limit offset];
           slept := slept w ++ [secs]; disk := disk w;
           writes := writes w; files := files w |}
      = Ret (data, error) w'
      ∧ requests w' = requests w ++ replicate (S k) (Request limit offset)
      ∧ match error with
        | Some msg => data = JNull ∧ msg ≠ ""
        | None => net w (length (requests w) + k)%nat (Request limit offset)
                  = Ok (Decoded data)
        end).
  { intros Hlt secs.
    edestruct (IH (retry_count + 1)) as (data & error & w' & k & E & Hreq & Hshape);
      [|exists data, error, w', (S k); split; [exact E|]]; [lia|].
    split.
    - rewrite Hreq. simpl. by rewrite <- app_assoc.
    - destruct error; [exact Hshape|]. simpl in Hshape.
      rewrite length_app in Hshape. simpl in Hshape.
      replace (length (requests w) + S k)%nat
        with (length (requests w) + 1 + k)%nat by lia.
      exact Hshape. }
  assert (Hstop : ∀ msg sl, msg ≠ "" →
    ∃ data error w' k,
      Ret (JNull, Some msg)
        {| net := net w; requests := requests w ++ [Request limit offset];
           slept := sl; disk := disk w; writes := writes w; files := files w |}
      = Ret (data, error) w'
      ∧ requests w' = requests w ++ replicate (S k) (Request limit offset)
      ∧ match error with
        | Some msg => data = JNull ∧ msg ≠ ""
        | None => net w (length (requests w) + k)%nat (Request limit offset)
                  = Ok (Decoded data)
        end).
  { intros msg sl Hmsg. exists JNull, (Some msg). eexists _, 0%nat.
    split; [reflexivity|]. split; [reflexivity|]. by split. }
  simpl. run_step.
  destruct (net w (length (requests w)) _) as [[d|e]|code reason|e] eqn:Enet;
    run_step.
  - exists d, None. eexists _, 0%nat. split; [reflexivity|].
    split; [reflexivity|]. by rewrite Nat.add_0_r.
  - destruct (Z.ltb_spec retry_count MAX_RETRIES); [by apply Hrec|by apply Hstop].
  - destruct (code =? 503).
    + destruct (Z.ltb_spec retry_count MAX_RETRIES); [by apply Hrec|by apply Hstop].
    + destruct (code =? 429); [|by apply Hstop].
      destruct (Z.ltb_spec retry_count MAX_RETRIES); [by apply Hrec|by apply Hstop].
  - destruct (Z.ltb_spec retry_count MAX_RETRIES); [by apply Hrec|by apply Hstop].
Qed.

End ExecutorTraces.

(** X1. make_requests.py recovers from transient failures: when the first
    [j <= MAX_RETRIES] answers are transient failures and the next one is a
    decodable 2xx body, the call returns that body unchanged and no error,
    after [j + 1] requests, having paused [(r + 1) * 5] seconds after a 503
    met at retry count [r], 30 seconds after a 429 and 5 seconds after any
    other failure. *)
Theorem retry_recovers
    (offset limit : Z) (w : Locations.world) (j : nat) (data : Py.json) :
  Z.of_nat j ≤ Locations.MAX_RETRIES →
  (∀ k, (k < j)%nat →
        Observed.transient
          (Io.net w (length (Io.requests w) + k)%nat
             (Locations.Request limit offset)) = true) →
  Io.net w (length (Io.requests w) + j)%nat (Locations.Request limit offset)
  = Locations.Ok (Locations.Decoded data) →
  ∃ w',
    Locations.make_api_request offset limit 0 w = Io.Ret (data, None) w'
    ∧ Io.requests w'
      = Io.requests w ++ replicate (S j) (Locations.Request limit offset)
    ∧ Io.slept w'
      = Io.slept w ++ Traces.retry_waits w (Locations.Request limit offset) 0 j
    ∧ Observed.same_store w w'.
Proof.
  intros Hj Htr Hok. unfold Locations.make_api_request.
  apply transient_then_decoded; try assumption;
    unfold Locations.call_depth, Locations.MAX_RETRIES in *; lia.
Qed.

Lemma retry_recovers_witness :
  ∃ w',
    Locations.make_api_request 1 1000 0
      (Observed.fresh
         (λ k _, if (k <? 2)%nat
                 then Locations.HTTPError 503 "Service Unavailable"
                 else Locations.Ok
                        (Locations.Decoded (Py.JObj [("results", Py.JArr [])])))
         (λ _, Io.WriteOk))
    = Io.Ret (Py.JObj [("results", Py.JArr [])], None) w'
    ∧ length (Io.requests w') = 3%nat
    ∧ Io.slept w' = [5; 10].
Proof.
  destruct (retry_recovers 1 1000
              (Observed.fresh
                 (λ k _, if (k <? 2)%nat
                         then Locations.HTTPError 503 "Service Unavailable"
                         else Locations.Ok
                                (Locations.Decoded
                                   (Py.JObj [("results", Py.JArr [])])))
                 (λ _, Io.WriteOk))
              2 (Py.JObj [("results", Py.JArr [])]))
    as (w' & E & Hreq & Hsl & _).
  - vm_compute. discriminate.
  - intros [|[|k]] Hk; [reflexivity|reflexivity|lia].
  - reflexivity.
  - exists w'. split; [exact E|]. rewrite Hreq, Hsl. split; reflexivity.
Defined.

(** X2. When every answer is a transient failure, the call of
    make_requests.py pauses once per retry, by the same schedule, and, if
    the last answer is a 429, once more for 30 seconds before it gives up. *)
Theorem exhausted_backoff (offset limit : Z) (w : Locations.world) :
  (∀ k, (length (Io.requests w) ≤ k)%nat →
        Observed.transient (Io.net w k (Locations.Request limit offset)) = true) →
  ∃ r w',
    Locations.make_api_request offset limit 0 w = Io.Ret r w'
    ∧ Io.slept w'
      = Io.slept w
        ++ Traces.retry_waits w (Locations.Request limit offset) 0
             (Z.to_nat Locations.MAX_RETRIES)
        ++ (if Traces.rate_limited
                 (Io.net w (length (Io.requests w)
                            + Z.to_nat Locations.MAX_RETRIES)%nat
                    (Locations.Request limit offset))
            then [30] else []).
Proof.
  intros Htr. unfold Locations.make_api_request.
  destruct (exhausted_waits offset limit Locations.call_depth 0 w)
    as (r & w' & E & Hsl); [unfold Locations.call_depth; lia|exact Htr|].
  exists r, w'. split; [exact E|exact Hsl].
Qed.

Lemma exhausted_backoff_witness :
  (∃ r w',
     Locations.make_api_request 1 1000 0
       (Observed.fresh (λ _ _, Locations.HTTPError 429 "Too Many Requests")
          (λ _, Io.WriteOk))
     = Io.Ret r w'
     ∧ Io.slept w' = [30; 30; 30; 30]).
Proof.
  destruct (exhausted_backoff 1 1000
              (Observed.fresh (λ _ _, Locations.HTTPError 429 "Too Many Requests")
                 (λ _, Io.WriteOk)))
    as (r & w' & E & Hsl).
  - intros k _. reflexivity.
  - exists r, w'. split; [exact E|]. rewrite Hsl. reflexivity.
Defined.

(** X3. Whatever the server does, the call of make_requests.py never hands
    back an error together with data, and never an empty error text; when
    it hands back no error, the data is the decoded body of the last
    answer. *)
Theorem executor_outcome_shape_ok (offset limit : Z) (w : Locations.world) :
  ∃ data error w' k,
    Locations.make_api_request offset limit 0 w = Io.Ret (data, error) w'
    ∧ Io.requests w'
      = Io.requests w ++ replicate (S k) (Locations.Request limit offset)
    ∧ match error with
      | Some msg => data = Py.JNull ∧ msg ≠ ""
      | None =>
          Io.net w (length (Io.requests w) + k)%nat
            (Locations.Request limit offset)
          = Locations.Ok (Locations.Decoded data)
      end.
Proof.
  unfold Locations.make_api_request. apply executor_outcome_shape.
  unfold Locations.call_depth. lia.
Qed.

(** ** More on the run controller of make_requests.py *)

Section LocationsTurns.
Import Py Io Locations Observed.

(** A turn whose answer carries a list under [results]: the body goes to
    disk as it came. *)
Lemma locations_turn_with_results n ex i successful failed (w : world)
    fields items :
  i ∉ ex →
  net w (length (requests w)) (chunk_request i) = Ok (Decoded (JObj fields)) →
  dict_lookup "results" fields = Some (JArr items) →
  ∃ w',
    main_body n ex i (successful, failed) w
    = Ret (match disk w (length (writes w)) with
           | WriteOk => (successful + 1, failed)
           | WriteFails _ => (successful, failed ++ [(i, "File save error")])
           end) w'
    ∧ requests w' = requests w ++ [chunk_request i]
    ∧ writes w' = writes w ++ [file_name i]
    ∧ slept w'
      = slept w ++ (if i <? n - 1 then [DELAY_BETWEEN_REQUESTS] else [])
    ∧ files w'
      = match disk w (length (writes w)) with
        | WriteOk => <[file_name i := Written (JObj fields)]> (files w)
        | WriteFails true => <[file_name i := Partial]> (files w)
        | WriteFails false => files w
        end.
Proof.
  intros Hi Enet Hres. unfold main_body.
  rewrite bool_decide_false by exact Hi.
  unfold mbind at 1, M_bind, bind.
  unfold make_api_request, call_depth.
  rewrite (decoded_returns _ _ _ _ w (JObj fields)) by exact Enet.
  unfold save_to_file, write_file. run_step. rewrite Hres.
  rewrite bool_decide_true by (by eexists).
  destruct fields as [|field fields]; [discriminate|]. simpl.
  destruct (disk w (length (writes w))) as [|[|]]; simpl;
    destruct (i <? n - 1); simpl;
    eexists; (split; [reflexivity|]); simpl; rewrite ?app_nil_r; by repeat split.
Qed.

(** What a turn can add to the failed list. *)
Lemma locations_turn_entry n ex i successful failed (w : world) st' w' :
  main_body n ex i (successful, failed) w = Ret st' w' →
  st'.2 = failed ∨ ∃ msg, st'.2 = failed ++ [(i, msg)] ∧ msg ≠ "".
Proof.
  unfold main_body. destruct (bool_decide (i ∈ ex)).
  { intros [= <- _]. by left. }
  destruct (executor_outcome_shape (chunk_offset LIMIT i) LIMIT call_depth 0 w)
    as (data & error & w1 & k & E & _ & Hshape); [unfold call_depth; lia|].
  unfold mbind at 1, M_bind, bind.
  fold (make_api_request (chunk_offset LIMIT i) LIMIT 0).
  unfold make_api_request at 1. rewrite E.
  assert (Hor : str_or error "Unknown error" ≠ "").
  { destruct error as [msg|]; simpl; [|done].
    destruct Hshape as [_ Hmsg]. destruct (String.eqb_spec msg ""); done. }
  unfold save_to_file, write_file. run_step.
  destruct (truthy data); simpl;
    [destruct (contains "results" data) as [e|[|]]; simpl|];
    try destruct (disk w1 (length (writes w1))) as [|[|]]; simpl;
    try destruct (getitem data "results") as [e|results]; simpl;
    try destruct (len results) as [e|count]; simpl;
    destruct (i <? n - 1); simpl; intros [= <- _]; simpl;
    first [by left | right; by eexists].
Qed.

(** The failed list of a loop only gains entries with a text. *)
Lemma locations_loop_entries n ex (l : list Z) st (w : world) st' w' :
  for_each l (main_body n ex) st w = Ret st' w' →
  Forall (λ entry : Z * string, entry.2 ≠ "") st.2 →
  Forall (λ entry : Z * string, entry.2 ≠ "") st'.2.
Proof.
  revert st w. induction l as [|i l IH]; intros [successful failed] w;
    cbn [for_each].
  { intros [= <- _]. done. }
  unfold bind.
  destruct (main_body n ex i (successful, failed) w) as [st1 w1|e w1|] eqn:E;
    [|discriminate|discriminate].
  intros Hloop Hall. apply (IH st1 w1 Hloop).
  destruct (locations_turn_entry _ _ _ _ _ _ _ _ E) as [->|(msg & -> & Hmsg)].
  - exact Hall.
  - apply Forall_app. split; [exact Hall|]. by repeat constructor.
Qed.

(** The requests of one turn, however it ends. *)
Lemma locations_turn_requests n ex i st (w : world) :
  ∃ w' k,
    final_world (main_body n ex i st w) = Some w'
    ∧ requests w' = requests w ++ replicate k (chunk_request i)
    ∧ (k ≤ 4)%nat
    ∧ (i ∈ ex → k = 0%nat)
    ∧ (i ∉ ex → (1 ≤ k)%nat).
Proof.
  destruct st as [successful failed]. unfold main_body.
  destruct (decide (i ∈ ex)) as [Hi|Hi].
  { rewrite bool_decide_true by exact Hi. exists w, 0%nat. simpl.
    split; [reflexivity|]. split; [by rewrite app_nil_r|]. split; [lia|].
    split; [done|done]. }
  rewrite bool_decide_false by exact Hi.
  destruct (make_api_request_rec_returns (chunk_offset LIMIT i) LIMIT call_depth 0 w)
    as ([data error] & w1 & k & E & Hk & Hreq & _); [unfold call_depth; lia|].
  unfold mbind at 1, M_bind, bind.
  fold (make_api_request (chunk_offset LIMIT i) LIMIT 0).
  unfold make_api_request at 1. rewrite E.
  assert (Hk4 : (k ≤ 4)%nat)
    by (change (Z.to_nat (MAX_RETRIES - 0)) with 3%nat in Hk; lia).
  unfold save_to_file, write_file. run_step.
  destruct (truthy data); simpl;
    [destruct (contains "results" data) as [e|[|]]; simpl|];
    try destruct (disk w1 (length (writes w1))) as [|[|]]; simpl;
    try destruct (getitem data "results") as [e|results]; simpl;
    try destruct (len results) as [e|count]; simpl;
    destruct (i <? n - 1); simpl;
    eexists _, k; (split; [reflexivity|]); simpl;
    (split; [exact Hreq|]); (split; [exact Hk4|]); (split; [done|lia]).
Qed.

End LocationsTurns.

(** ** How often a loop of turns sends each request *)

Section Occurrences.
Import Traces.
Context {Req : Type} `{EqDecision Req}.

Lemma occurrences_app (r : Req) (l1 l2 : list Req) :
  occurrences r (l1 ++ l2) = (occurrences r l1 + occurrences r l2)%nat.
Proof. unfold occurrences. by rewrite filter_app, length_app. Qed.

Lemma occurrences_replicate (r r' : Req) (k : nat) :
  occurrences r (replicate k r') = if decide (r' = r) then k else 0%nat.
Proof.
  unfold occurrences. induction k as [|k IH]; simpl.
  { by destruct (decide (r' = r)). }
  rewrite filter_cons. destruct (decide (r' = r)); simpl; by rewrite IH.
Qed.

Lemma occurrences_none (r : Req) (l : list Req) :
  r ∉ l → occurrences r l = 0%nat.
Proof.
  unfold occurrences. induction l as [|x l IH]; intros Hr; [reflexivity|].
  apply not_elem_of_cons in Hr as [Hne Hr]. rewrite filter_cons.
  destruct (decide (x = r)) as [E|_]; [by destruct Hne|by apply IH].
Qed.

End Occurrences.

Section Budget.
Import Io Observed Traces.
Context {Req Resp A S : Type} `{EqDecision Req}.
Variable req : A → Req.
Variable skip : A → Prop.
Variable body : A → S → M Req Resp S.
Variable B : nat.

Hypothesis body_requests : ∀ x s w,
  ∃ w' k,
    final_world (body x s w) = Some w'
    ∧ requests w' = requests w ++ replicate k (req x)
    ∧ (k ≤ B)%nat
    ∧ (skip x → k = 0%nat)
    ∧ (¬ skip x → (1 ≤ k)%nat).

(** Chunk by chunk: a loop over chunks with distinct requests sends only
    requests of chunks it does not skip, each at most [B] times, and, when
    it runs to its end, each at least once. *)
Lemma for_each_requests (l : list A) s w :
  NoDup (req <$> l) →
  ∃ w' new,
    final_world (for_each l body s w) = Some w'
    ∧ requests w' = requests w ++ new
    ∧ (∀ r, r ∈ new → ∃ x, x ∈ l ∧ ¬ skip x ∧ r = req x)
    ∧ (∀ r, (occurrences r new ≤ B)%nat)
    ∧ ∀ s', for_each l body s w = Ret s' w' →
        ∀ x, x ∈ l → ¬ skip x → (1 ≤ occurrences (req x) new)%nat.
Proof.
  revert s w. induction l as [|x l IH]; intros s w Hnd; cbn [for_each].
  { exists w, []. split; [reflexivity|]. split; [by rewrite app_nil_r|].
    split; [intros r Hr; by apply elem_of_nil in Hr|].
    split; [intros r; unfold occurrences; simpl; lia|].
    intros _ _ x Hx. by apply elem_of_nil in Hx. }
  rewrite fmap_cons in Hnd. apply NoDup_cons in Hnd as [Hx Hnd].
  destruct (body_requests x s w) as (w1 & k & Hfin & Hreq & HkB & Hskip & Hns).
  assert (Hturn : ∀ r, r ∈ replicate k (req x) →
                       ∃ y, y ∈ x :: l ∧ ¬ skip y ∧ r = req y).
  { intros r [-> Hk]%elem_of_replicate. exists x.
    split; [rewrite elem_of_cons; by left|]. split; [|reflexivity].
    intros Hs. apply Hk. by apply Hskip. }
  unfold bind.
  destruct (body x s w) as [s1 w1'|e w1'|]; simpl in Hfin; [| |discriminate];
    injection Hfin as ->.
  - destruct (IH s1 w1 Hnd) as (w' & new & Hfin' & Hreq' & Hnew & Hup & Hlow).
    exists w', (replicate k (req x) ++ new). split; [exact Hfin'|].
    split; [rewrite Hreq', Hreq; by rewrite app_assoc|].
    assert (Hfresh : req x ∉ new).
    { intros (y & Hy & _ & E)%Hnew. apply Hx. rewrite E.
      apply list_elem_of_fmap_2, Hy. }
    split; [|split].
    + intros r [Hr|Hr]%elem_of_app; [by apply Hturn|].
      destruct (Hnew r Hr) as (y & Hy & Hnsy & E). exists y.
      split; [rewrite elem_of_cons; by right|]. split; [exact Hnsy|exact E].
    + intros r. rewrite occurrences_app, occurrences_replicate.
      destruct (decide (req x = r)) as [<-|_]; [|apply Hup].
      rewrite occurrences_none by exact Hfresh. lia.
    + intros s' E y Hy Hnsy. rewrite occurrences_app.
      apply elem_of_cons in Hy as [->|Hy].
      * rewrite occurrences_replicate, decide_True by reflexivity.
        specialize (Hns Hnsy). lia.
      * specialize (Hlow s' E y Hy Hnsy). lia.
  - exists w1, (replicate k (req x)). split; [reflexivity|]. split; [exact Hreq|].
    split; [exact Hturn|]. split; [|discriminate].
    intros r. rewrite occurrences_replicate. destruct (decide _); lia.
Qed.

End Budget.

(** X4. When make_requests.py reaches its report, every file that was in
    the data directory at the start, and every file whose name is not that
    of a planned chunk, is as it was: a run only ever creates the files of
    chunks it found missing.  In particular a file that an earlier failed
    write left incomplete stays incomplete. *)
Theorem run_leaves_existing_files
    (w w' : Locations.world) (st : Locations.report) :
  Locations.main w = Io.Ret st w' →
  (∀ name,
     Observed.present w name
     ∨ (∀ i, i ∈ Observed.planned → name ≠ Locations.file_name i) →
     Io.files w' !! name = Io.files w !! name)
  ∧ (∀ i, i ∈ Observed.planned →
       Io.files w !! Locations.file_name i = Some Io.Partial →
       Io.files w' !! Locations.file_name i = Some Io.Partial
       ∧ ¬ Observed.persisted w' (Locations.file_name i)).
Proof.
  intros Hmain. pose proof (locations_main_ledger w) as H. rewrite Hmain in H.
  destruct H as (fnew & _ & _ & _ & _ & _ & Hframe & _).
  assert (Hkeep : ∀ name,
            Observed.present w name
            ∨ (∀ i, i ∈ Observed.planned → name ≠ Locations.file_name i) →
            Io.files w' !! name = Io.files w !! name).
  { intros name Hname. apply Hframe. intros i Hi Hns ->.
    destruct Hname as [Hp|Hother].
    - apply Hns, skipped_iff_present; assumption.
    - exact (Hother i Hi eq_refl). }
  split; [exact Hkeep|].
  intros i Hi Hpart.
  assert (E : Io.files w' !! Locations.file_name i = Some Io.Partial).
  { rewrite Hkeep; [exact Hpart|]. left. unfold Observed.present.
    rewrite Hpart. by eexists. }
  split; [exact E|]. intros [data Hw]. rewrite E in Hw. discriminate.
Qed.

Lemma run_leaves_existing_files_witness :
  let w := {| Io.net := λ _ _, Locations.Ok
                               (Locations.Decoded (Py.JObj [("results", Py.JArr [])]));
              Io.requests := []; Io.slept := [];
              Io.disk := λ _, Io.WriteOk; Io.writes := [];
              Io.files := {[ "locations_7.json" := Io.Partial ]} |} in
  let w' := default w (Observed.final_world (Locations.main w)) in
  Io.files w' !! "locations_7.json" = Some Io.Partial
  ∧ Io.files w' !! "notes.txt" = None.
Proof.
  intros w w'.
  destruct (run_leaves_existing_files w w' (39, [])) as [Hkeep Hpart].
  - vm_compute. reflexivity.
  - split.
    + apply (Hpart 7); [apply elem_of_planned; lia|reflexivity].
    + rewrite Hkeep; [reflexivity|]. right. intros i _ E.
      unfold Locations.file_name in E. simpl in E. discriminate E.
Defined.

(** X5. The requests of a run of make_requests.py, chunk by chunk, however
    the run ends: every request it sends is that of a planned chunk that
    had no file at the start; the request of any one chunk is sent at most
    [MAX_RETRIES + 1 = 4] times; that of a chunk whose file was there is
    never sent; and when the run reaches its report, the request of each
    planned chunk that had no file has been sent at least once. *)
Theorem request_budget (w : Locations.world) :
  ∃ w',
    Observed.final_world (Locations.main w) = Some w'
    ∧ (∀ r, r ∈ Observed.new_requests w w' →
         ∃ i, i ∈ Observed.planned
              ∧ ¬ Observed.present w (Locations.file_name i)
              ∧ r = Observed.chunk_request i)
    ∧ (∀ i, (Traces.occurrences (Observed.chunk_request i)
               (Observed.new_requests w w')
             ≤ Z.to_nat Locations.MAX_RETRIES + 1)%nat)
    ∧ (∀ i, i ∈ Observed.planned →
         Observed.present w (Locations.file_name i) →
         Traces.occurrences (Observed.chunk_request i)
           (Observed.new_requests w w') = 0%nat)
    ∧ ∀ st, Locations.main w = Io.Ret st w' →
        ∀ i, i ∈ Observed.planned →
          ¬ Observed.present w (Locations.file_name i) →
          (1 ≤ Traces.occurrences (Observed.chunk_request i)
                 (Observed.new_requests w w'))%nat.
Proof.
  pose proof (main_unfold w) as Hmain. unfold Locations.main_loop in Hmain.
  destruct (for_each_requests Observed.chunk_request
              (λ i, i ∈ Observed.found_on_disk w)
              (Locations.main_body 39 (Observed.found_on_disk w)) 4
              (locations_turn_requests 39 (Observed.found_on_disk w))
              (Py.range 39) (0, []) w)
    as (w' & new & Hfin & Hreq & Hnew & Hup & Hlow).
  { apply NoDup_fmap_2_strong; [|apply NoDup_seqZ].
    intros i j _ _. apply chunk_request_inj. }
  generalize dependent (Io.for_each (Py.range 39)
                          (Locations.main_body 39 (Observed.found_on_disk w))
                          (0, []) w).
  intros loop Hmain Hfin Hlow.
  assert (Hlog : Observed.new_requests w w' = new).
  { unfold Observed.new_requests. rewrite Hreq. apply drop_app_length. }
  assert (Hmissing : ∀ r, r ∈ new →
            ∃ i, i ∈ Observed.planned
                 ∧ ¬ Observed.present w (Locations.file_name i)
                 ∧ r = Observed.chunk_request i).
  { intros r (i & Hi & Hns & E)%Hnew. exists i. split; [exact Hi|].
    split; [|exact E]. intros Hp. apply Hns.
    apply skipped_iff_present; assumption. }
  exists w'. rewrite Hlog.
  split; [rewrite Hmain; destruct loop; exact Hfin|].
  split; [exact Hmissing|]. split; [intros i; apply Hup|]. split.
  - intros i Hi Hp. apply occurrences_none.
    intros (j & Hj & Hnp & E)%Hmissing.
    apply chunk_request_inj in E. subst j. exact (Hnp Hp).
  - intros st Hst i Hi Hnp. rewrite Hmain in Hst.
    destruct loop as [r w1|e w1|]; [|discriminate|discriminate].
    injection Hst as -> ->. apply (Hlow st eq_refl i Hi).
    intros Hs. apply Hnp. apply skipped_iff_present; assumption.
Qed.

(** X6. A turn of make_requests.py whose first answer is a JSON object
    with a list under [results], when the turn returns (so the data
    directory was there or could be made): one request, one write; if the
    write goes through the file holds the decoded body as it came and the
    chunk is counted, otherwise the chunk is entered as ["File save error"]
    (with or without an incomplete file left behind); and the pause of
    [DELAY_BETWEEN_REQUESTS] follows unless the chunk is the last one. *)
Theorem turn_with_results
    (n i successful : Z) (ex : list Z) (failed : list (Z * string))
    (w w' : Locations.world) (st' : Locations.report)
    (fields : list (string * Py.json)) (items : list Py.json) :
  i ∉ ex →
  Io.net w (length (Io.requests w)) (Observed.chunk_request i)
  = Locations.Ok (Locations.Decoded (Py.JObj fields)) →
  Py.dict_lookup "results" fields = Some (Py.JArr items) →
  Locations.main_body n ex i (successful, failed) w = Io.Ret st' w' →
  st' = match Io.disk w (length (Io.writes w)) with
        | Io.WriteOk => (successful + 1, failed)
        | Io.WriteFails _ => (successful, failed ++ [(i, "File save error")])
        end
  ∧ Io.requests w' = Io.requests w ++ [Observed.chunk_request i]
  ∧ Io.writes w' = Io.writes w ++ [Locations.file_name i]
  ∧ Io.slept w'
    = Io.slept w
      ++ (if i <? n - 1 then [Locations.DELAY_BETWEEN_REQUESTS] else [])
  ∧ Io.files w'
    = match Io.disk w (length (Io.writes w)) with
      | Io.WriteOk =>
          <[Locations.file_name i := Io.Written (Py.JObj fields)]> (Io.files w)
      | Io.WriteFails true =>
          <[Locations.file_name i := Io.Partial]> (Io.files w)
      | Io.WriteFails false => Io.files w
      end.
Proof.
  intros Hi Enet Hres Hturn.
  destruct (locations_turn_with_results n ex i successful failed w fields items
              Hi Enet Hres) as (w1 & E & Hw1).
  rewrite E in Hturn. injection Hturn as <- <-. split; [reflexivity|exact Hw1].
Qed.

Lemma turn_with_results_witness :
  let w : Locations.world :=
    Observed.fresh
      (λ _ _, Locations.Ok
                (Locations.Decoded
                   (Py.JObj [("metadata", Py.JNull); ("results", Py.JArr [])])))
      (λ _, Io.WriteFails true) in
  let turn := Locations.main_body 39 [] 38 (38, []) w in
  let w' := default w (Observed.final_world turn) in
  Observed.returned turn = Some (38, [(38, "File save error")])
  ∧ Io.writes w' = ["locations_38.json"]
  ∧ Io.slept w' = []
  ∧ Io.files w' !! "locations_38.json" = Some Io.Partial.
Proof.
  intros w turn w'.
  destruct (turn_with_results 39 38 38 [] [] w w'
              (default (0, []) (Observed.returned turn))
              [("metadata", Py.JNull); ("results", Py.JArr [])] [])
    as (Est & _ & Hwr & Hsl & Hfiles).
  - intros H. by apply elem_of_nil in H.
  - reflexivity.
  - reflexivity.
  - vm_compute. reflexivity.
  - split; [vm_compute; reflexivity|]. split; [exact Hwr|].
    split; [exact Hsl|]. rewrite Hfiles. reflexivity.
Defined.

(** X7. Every entry of the failed list that make_requests.py reports
    carries a non-empty error text, for a planned chunk that had no file at
    the start of the run. *)
Theorem failed_entries_have_text
    (w w' : Locations.world) (st : Locations.report) (i : Z) (msg : string) :
  Locations.main w = Io.Ret st w' →
  (i, msg) ∈ st.2 →
  msg ≠ ""
  ∧ i ∈ Observed.planned
  ∧ ¬ Observed.present w (Locations.file_name i).
Proof.
  intros Hmain Hin. split.
  - rewrite main_unfold in Hmain. unfold Locations.main_loop in Hmain.
    destruct (Io.for_each (Py.range 39)
                (Locations.main_body 39 (Observed.found_on_disk w)) (0, []) w)
      as [r w1|e w1|] eqn:Hloop; [|discriminate|discriminate].
    injection Hmain as -> ->.
    pose proof (locations_loop_entries _ _ _ _ _ _ _ Hloop (Forall_nil_2 _)) as Hall.
    rewrite Forall_forall in Hall. exact (Hall (i, msg) Hin).
  - destruct (locations_run_facts w st w' Hmain) as (_ & Hfailed & _).
    destruct (Hfailed i) as (Hp & Hnp & _); [|split; assumption].
    apply list_elem_of_fmap. exists (i, msg). split; [reflexivity|exact Hin].
Qed.

Lemma failed_entries_have_text_witness :
  let w : Locations.world := Observed.fresh
             (λ k _, if (k <? 1)%nat then Locations.HTTPError 404 "Not Found"
                     else Locations.Ok
                            (Locations.Decoded (Py.JObj [("results", Py.JArr [])])))
             (λ _, Io.WriteOk) in
  "HTTP Error 404: Not Found" ≠ "" ∧ 0 ∈ Observed.planned.
Proof.
  intros w.
  destruct (failed_entries_have_text w
              (default w (Observed.final_world (Locations.main w)))
              (38, [(0, "HTTP Error 404: Not Found")]) 0
              "HTTP Error 404: Not Found") as (Hmsg & Hp & _).
  - vm_compute. reflexivity.
  - apply list_elem_of_singleton. reflexivity.
  - split; [exact Hmsg|exact Hp].
Defined.

(** X8. The resume probe of make_requests.py only reads: it leaves the
    world as it found it and returns, each once, exactly the indices from 0
    to 38 whose file [locations_<i>.json] is in the data directory; a file
    with any other index is never reported. *)
Theorem resume_probe_reads_39 (w : Locations.world) :
  ∃ existing_files,
    Locations.check_existing_files w = Io.Ret existing_files w
    ∧ NoDup existing_files
    ∧ ∀ i, i ∈ existing_files
           ↔ Observed.present w (Locations.file_name i) ∧ 0 ≤ i < 39.
Proof.
  exists (Observed.found_on_disk w). split; [apply check_existing_files_spec|].
  split; [|apply elem_of_found_on_disk].
  unfold Observed.found_on_disk. apply NoDup_filter, NoDup_seqZ.
Qed.

(** ** More on planning by years *)

Section YearWindows.
Import Monthly Observed.

Lemma create_date_ranges_of_windows start_year end_year years_per_chunk :
  start_year ≤ end_year → 0 < years_per_chunk →
  create_date_ranges_of start_year end_year years_per_chunk
  = Some (year_windows end_year years_per_chunk start_year
            ((end_year - start_year) / years_per_chunk + 1)).
Proof.
  intros Hle Hpos. unfold create_date_ranges_of.
  rewrite (create_date_ranges_loop_spec end_year years_per_chunk Hpos) by lia.
  destruct (Z.leb_spec start_year end_year); [reflexivity|lia].
Qed.

Lemma year_windows_lookup END_YEAR CHUNK_SIZE current_year n (i : nat) r :
  year_windows END_YEAR CHUNK_SIZE current_year n !! i = Some r ↔
  Z.of_nat i < n
  ∧ r = year_window END_YEAR CHUNK_SIZE (current_year + Z.of_nat i * CHUNK_SIZE).
Proof.
  unfold year_windows. rewrite list_lookup_fmap. split.
  - destruct (seqZ 0 n !! i) as [j|] eqn:Hj; [|discriminate].
    apply lookup_seqZ in Hj as [-> Hlt]. simpl. intros [= <-]. split; [lia|reflexivity].
  - intros [Hlt ->]. rewrite lookup_seqZ_lt by lia. reflexivity.
Qed.

(** With a window of no length the loop never ends, however long it is run;
    past the last year it is over at once. *)
Lemma create_date_ranges_loop_edges fuel END_YEAR CHUNK_SIZE current_year ranges :
  (CHUNK_SIZE ≤ 0 → current_year ≤ END_YEAR →
   create_date_ranges_loop fuel END_YEAR CHUNK_SIZE current_year ranges = None)
  ∧ (END_YEAR < current_year →
     create_date_ranges_loop fuel END_YEAR CHUNK_SIZE current_year ranges
     = Some ranges).
Proof.
  split.
  - revert current_year ranges.
    induction fuel as [|fuel IH]; intros current_year ranges Hc Hle; simpl;
      destruct (Z.leb_spec current_year END_YEAR); try lia; [reflexivity|].
    apply IH; lia.
  - intros Hgt. destruct fuel; simpl;
      destruct (Z.leb_spec current_year END_YEAR); (lia || reflexivity).
Qed.

End YearWindows.

(** X9. For [start_year <= end_year] and a positive window length, the
    windows of fetch_monthly_data.py split the span of years: every year
    from [start_year] to [end_year] lies in exactly one window, each window
    starts the year after the one before it ends, the first starts at
    [start_year] and the last ends at [end_year]. *)
Theorem year_windows_partition (start_year end_year years_per_chunk : Z) :
  start_year ≤ end_year → 0 < years_per_chunk →
  ∃ ranges,
    Monthly.create_date_ranges_of start_year end_year years_per_chunk = Some ranges
    ∧ (∀ y, start_year ≤ y ≤ end_year →
         ∃ (i : nat) r,
           ranges !! i = Some r
           ∧ Monthly.start_year r ≤ y ≤ Monthly.end_year r
           ∧ ∀ (j : nat) r', ranges !! j = Some r' →
               Monthly.start_year r' ≤ y ≤ Monthly.end_year r' → j = i)
    ∧ (∀ (i : nat) r r', ranges !! i = Some r → ranges !! S i = Some r' →
         Monthly.start_year r' = Monthly.end_year r + 1)
    ∧ (∃ first, ranges !! 0%nat = Some first
                ∧ Monthly.start_year first = start_year)
    ∧ (∃ final, last ranges = Some final ∧ Monthly.end_year final = end_year).
Proof.
  intros Hle Hpos.
  set (n := (end_year - start_year) / years_per_chunk + 1).
  assert (Hbound : (n - 1) * years_per_chunk ≤ end_year - start_year
                   < n * years_per_chunk).
  { subst n.
    pose proof (Z.div_mod (end_year - start_year) years_per_chunk ltac:(lia)).
    pose proof (Z.mod_pos_bound (end_year - start_year) years_per_chunk Hpos).
    nia. }
  assert (Hn : 0 < n) by nia.
  exists (Observed.year_windows end_year years_per_chunk start_year n).
  split; [by apply create_date_ranges_of_windows|].
  split; [|split; [|split]].
  - intros y Hy.
    set (q := (y - start_year) / years_per_chunk).
    assert (Hq : q * years_per_chunk ≤ y - start_year < (q + 1) * years_per_chunk).
    { subst q.
      pose proof (Z.div_mod (y - start_year) years_per_chunk ltac:(lia)).
      pose proof (Z.mod_pos_bound (y - start_year) years_per_chunk Hpos).
      nia. }
    assert (Hq0 : 0 ≤ q < n) by nia.
    exists (Z.to_nat q), (Observed.year_window end_year years_per_chunk
                            (start_year + q * years_per_chunk)).
    split; [|split].
    + apply year_windows_lookup. rewrite Z2Nat.id by lia. split; [lia|reflexivity].
    + simpl. lia.
    + intros j r' [Hj ->]%year_windows_lookup. simpl. intros Hin.
      assert (Hj' : Z.of_nat j * years_per_chunk ≤ y - start_year
                    < (Z.of_nat j + 1) * years_per_chunk) by lia.
      assert (Z.of_nat j = q) by nia. lia.
  - intros i r r' [Hi ->]%year_windows_lookup [Hi' ->]%year_windows_lookup.
    simpl. nia.
  - eexists. split; [apply year_windows_lookup; split; [lia|reflexivity]|].
    simpl. lia.
  - exists (Observed.year_window end_year years_per_chunk
              (start_year + (n - 1) * years_per_chunk)).
    split; [|simpl; nia].
    rewrite last_lookup. apply year_windows_lookup.
    unfold Observed.year_windows. rewrite length_fmap, length_seqZ.
    split; [lia|].
    replace (Z.of_nat (Nat.pred (Z.to_nat n))) with (n - 1) by lia. reflexivity.
Qed.

Lemma year_windows_partition_witness :
  ∃ ranges,
    Monthly.create_date_ranges_of 1938 2018 10 = Some ranges
    ∧ ∃ final, last ranges = Some final ∧ Monthly.end_year final = 2018.
Proof.
  destruct (year_windows_partition 1938 2018 10 ltac:(lia) ltac:(lia))
    as (ranges & E & _ & _ & _ & Hlast).
  exists ranges. split; [exact E|exact Hlast].
Defined.

(** X10. The planning loop of fetch_monthly_data.py at its edges: with a
    window length of zero or less and a first year not beyond the last, it
    does not end within any number of turns; with a first year beyond the
    last it plans nothing. *)
Theorem planning_loop_edges
    (fuel : nat) (END_YEAR CHUNK_SIZE current_year : Z)
    (ranges : list Monthly.range_info) :
  (CHUNK_SIZE ≤ 0 → current_year ≤ END_YEAR →
   Monthly.create_date_ranges_loop fuel END_YEAR CHUNK_SIZE current_year ranges
   = None)
  ∧ (END_YEAR < current_year →
     Monthly.create_date_ranges_loop fuel END_YEAR CHUNK_SIZE current_year ranges
     = Some ranges
     ∧ Monthly.create_date_ranges_of current_year END_YEAR CHUNK_SIZE = Some []).
Proof.
  split.
  - apply create_date_ranges_loop_edges.
  - intros Hgt. split; [by apply create_date_ranges_loop_edges|].
    unfold Monthly.create_date_ranges_of. by apply create_date_ranges_loop_edges.
Qed.

Lemma planning_loop_edges_witness :
  Monthly.create_date_ranges_loop 1000 2018 0 1938 [] = None
  ∧ Monthly.create_date_ranges_of 2019 2018 10 = Some [].
Proof.
  destruct (planning_loop_edges 1000 2018 0 1938 []) as [Hnone _].
  destruct (planning_loop_edges 0 2018 10 2019 []) as [_ Hempty].
  split; [apply Hnone; lia|apply Hempty; lia].
Defined.

(** ** File names *)

Section FileNames.
Import Monthly Observed Traces.
Import Stdlib.Strings.Ascii.

Lemma no_underscore_pretty_N_go (x : N) s :
  no_underscore s = true → no_underscore (pretty_N_go x s) = true.
Proof.
  revert s. induction (N.lt_wf_0 x) as [x _ IH]; intros s Hs.
  assert (x = 0 ∨ 0 < x)%N as [->|Hx] by lia.
  - by rewrite pretty_N_go_0.
  - rewrite pretty_N_go_step by done. apply IH.
    { by apply N.div_lt. }
    simpl. rewrite Hs, andb_true_r.
    unfold pretty_N_char. by repeat case_match.
Qed.

(** Numbers are printed without ["_"]. *)
Lemma no_underscore_pretty (z : Z) : no_underscore (pretty z) = true.
Proof.
  assert (Hpos : ∀ p : positive, no_underscore (pretty p) = true).
  { intros p. unfold pretty, pretty_positive, pretty, pretty_N.
    case_decide; [done|]. by apply no_underscore_pretty_N_go. }
  destruct z as [|p|p]; unfold pretty, pretty_Z; [done|apply Hpos|].
  simpl. apply Hpos.
Qed.

(** Two texts free of ["_"] that are followed by one are the same text as
    soon as the whole is. *)
Lemma cut_at_underscore s s' t t' :
  no_underscore s = true → no_underscore s' = true →
  s +:+ String "_"%char t = s' +:+ String "_"%char t' → s = s'.
Proof.
  revert s'. induction s as [|c s IH]; intros [|c' s'] Hs Hs' E; simpl in *.
  - reflexivity.
  - injection E as <- _. discriminate.
  - injection E as -> _. discriminate.
  - injection E as -> E. f_equal. apply (IH s'); [| |exact E].
    + by apply andb_true_iff in Hs as [_ ?].
    + by apply andb_true_iff in Hs' as [_ ?].
Qed.

(** The file name of a window tells its first year. *)
Lemma window_filename_inj END_YEAR CHUNK_SIZE y y' :
  filename (year_window END_YEAR CHUNK_SIZE y)
  = filename (year_window END_YEAR CHUNK_SIZE y') →
  y = y'.
Proof.
  unfold year_window. cbn [filename]. intros E.
  apply (inj (String.app "FIPS10003_avg_")) in E.
  apply (inj pretty).
  eapply cut_at_underscore; [apply no_underscore_pretty..|exact E].
Qed.

End FileNames.

(** X11. Identifiers are not shared: make_requests.py stores distinct
    chunks under distinct file names, and, for [start_year <= end_year] and
    a positive window length, the windows fetch_monthly_data.py plans have
    pairwise distinct file names. *)
Theorem file_names_distinct (start_year end_year years_per_chunk : Z) :
  start_year ≤ end_year → 0 < years_per_chunk →
  (∀ i j, Locations.file_name i = Locations.file_name j → i = j)
  ∧ ∃ ranges,
      Monthly.create_date_ranges_of start_year end_year years_per_chunk
      = Some ranges
      ∧ NoDup (Monthly.filename <$> ranges).
Proof.
  intros Hle Hpos. split; [apply file_name_inj|].
  eexists. split; [by apply create_date_ranges_of_windows|].
  unfold Observed.year_windows. rewrite <- list_fmap_compose.
  apply NoDup_fmap_2_strong; [|apply NoDup_seqZ].
  intros i j _ _ E. apply window_filename_inj in E. nia.
Qed.

Lemma file_names_distinct_witness :
  ∃ ranges,
    Monthly.create_date_ranges_of 1938 2018 10 = Some ranges
    ∧ NoDup (Monthly.filename <$> ranges).
Proof.
  destruct (file_names_distinct 1938 2018 10 ltac:(lia) ltac:(lia))
    as (_ & ranges & E & Hnd).
  exists ranges. split; [exact E|exact Hnd].
Defined.

(** ** More on fetch_monthly_data.py *)

Section Projection.
Import Py Io Monthly Observed Traces.

Lemma dict_lookup_set_ne k k' x fields :
  k ≠ k' → dict_lookup k' (dict_set k x fields) = dict_lookup k' fields.
Proof.
  intros Hne. induction fields as [|[k0 v] rest IH]; simpl.
  - destruct (String.eqb_spec k k'); [done|reflexivity].
  - destruct (String.eqb_spec k0 k) as [->|Hk0]; simpl.
    + destruct (String.eqb_spec k k'); [done|reflexivity].
    + destruct (String.eqb_spec k0 k'); [reflexivity|exact IH].
Qed.

Lemma dict_set_keys k x v fields :
  dict_lookup k fields = Some v → (dict_set k x fields).*1 = fields.*1.
Proof.
  induction fields as [|[k0 v0] rest IH]; cbn [dict_lookup dict_set]; [done|].
  destruct (String.eqb k0 k); [reflexivity|].
  intros H. rewrite !fmap_cons. f_equal. by apply IH.
Qed.

(** The record kept of an object. *)
Lemma adjust_item_object fields :
  adjust_item (JObj fields)
  = inr (JObj ((λ k, (k, default JNull (dict_lookup k fields))) <$> kept_fields)).
Proof. reflexivity. Qed.

(** Records come out one for one, and projecting them again changes
    nothing. *)
Lemma adjust_items_objects items :
  Forall (λ item, is_object item = true) items →
  ∃ adjusted,
    adjust_items items = inr adjusted
    ∧ length adjusted = length items
    ∧ adjust_items adjusted = inr adjusted
    ∧ ∀ (n : nat) fields, items !! n = Some (JObj fields) →
        adjusted !! n
        = Some (JObj ((λ k, (k, default JNull (dict_lookup k fields)))
                        <$> kept_fields)).
Proof.
  induction 1 as [|item items Hitem _ IH].
  { exists []. repeat split; try reflexivity. intros n fields. by destruct n. }
  destruct item as [| | | | |fields]; try discriminate.
  destruct IH as (adjusted & E & Hlen & Hfix & Hnth).
  eexists (_ :: adjusted). split; [|split; [|split]].
  - cbn [adjust_items]. rewrite adjust_item_object, E. reflexivity.
  - simpl. by rewrite Hlen.
  - cbn [adjust_items]. rewrite adjust_item_object, Hfix. reflexivity.
  - intros [|n] fields'; simpl.
    + intros [= <-]. reflexivity.
    + apply Hnth.
Qed.

(** The requests of one turn, however it ends. *)
Lemma monthly_turn_requests n ex entry st (w : world) :
  ∃ w' k,
    final_world (main_body n ex entry st w) = Some w'
    ∧ requests w' = requests w ++ replicate k (monthly_request entry)
    ∧ (k ≤ 1)%nat
    ∧ (monthly_key entry ∈ ex → k = 0%nat)
    ∧ (monthly_key entry ∉ ex → (1 ≤ k)%nat).
Proof.
  destruct st as [successful failed]. destruct entry as [i range_info].
  unfold main_body, monthly_key. cbn [snd].
  destruct (decide (filename range_info ∈ ex)) as [Hi|Hi].
  { rewrite bool_decide_true by exact Hi. exists w, 0%nat.
    split; [reflexivity|]. split; [simpl; by rewrite app_nil_r|].
    split; [lia|]. split; [done|done]. }
  rewrite bool_decide_false by exact Hi.
  unfold mbind at 1, M_bind, bind.
  destruct (monthly_executor_cases (start_date range_info) (end_date range_info) w)
    as [[msg E]|[(adjusted & fields & E)|[e E]]]; rewrite E; clear E.
  - run_step. destruct (i <? n); simpl; eexists _, 1%nat;
      (split; [reflexivity|]); (split; [reflexivity|]);
      (split; [lia|]); (split; [done|lia]).
  - unfold save_data, write_file. run_step.
    rewrite record_count_normalized.
    pose proof (dict_set_not_nil "results" (JArr adjusted) fields) as Hne.
    destruct (dict_set "results" (JArr adjusted) fields) eqn:Eset; [done|].
    rewrite <- Eset. simpl.
    destruct (disk w (length (writes w))) as [|[|]]; simpl;
      destruct (i <? n); simpl; eexists _, 1%nat;
      (split; [reflexivity|]); (split; [reflexivity|]);
      (split; [lia|]); (split; [done|lia]).
  - eexists _, 1%nat. split; [reflexivity|]. split; [reflexivity|].
    split; [lia|]. split; [done|lia].
Qed.

End Projection.

(** X12. What fetch_monthly_data.py makes of a good answer: when the body
    is a JSON object whose [results] is a list of objects, the call returns
    the body with that list replaced, record for record, by objects holding
    exactly the fields date, datatype, station, attributes and value (null
    where the record had none); projecting the result again changes
    nothing, and every other key of the body, and the order of its keys,
    is kept. *)
Theorem results_are_projected
    (start_date end_date : string) (w : Monthly.world)
    (status_code : Z) (str_http_error : string)
    (fields : list (string * Py.json)) (items : list Py.json) :
  Io.net w (length (Io.requests w)) (Monthly.Request start_date end_date)
  = Monthly.Response status_code str_http_error (Monthly.Json (Py.JObj fields)) →
  Monthly.is_error_status status_code = false →
  Py.dict_lookup "results" fields = Some (Py.JArr items) →
  Forall (λ item, Traces.is_object item = true) items →
  ∃ adjusted w',
    Monthly.make_api_request start_date end_date w
    = Io.Ret (Py.JObj (Py.dict_set "results" (Py.JArr adjusted) fields), None) w'
    ∧ length adjusted = length items
    ∧ (∀ (n : nat) record, items !! n = Some (Py.JObj record) →
         adjusted !! n
         = Some (Py.JObj ((λ k, (k, default Py.JNull (Py.dict_lookup k record)))
                            <$> Traces.kept_fields)))
    ∧ Monthly.adjust_items adjusted = inr adjusted
    ∧ (Py.dict_set "results" (Py.JArr adjusted) fields).*1 = fields.*1
    ∧ Py.dict_lookup "results" (Py.dict_set "results" (Py.JArr adjusted) fields)
      = Some (Py.JArr adjusted)
    ∧ ∀ k, k ≠ "results" →
        Py.dict_lookup k (Py.dict_set "results" (Py.JArr adjusted) fields)
        = Py.dict_lookup k fields.
Proof.
  intros Enet Hok Hres Hobj.
  destruct (adjust_items_objects items Hobj) as (adjusted & E & Hlen & Hfix & Hnth).
  exists adjusted. eexists. split; [|split; [exact Hlen|split; [exact Hnth|]]].
  - unfold Monthly.make_api_request. run_step. rewrite Enet, Hok. simpl.
    rewrite Hres. simpl. rewrite E. simpl. reflexivity.
  - split; [exact Hfix|]. split; [by eapply dict_set_keys|].
    split; [apply dict_lookup_set|]. intros k Hk. by apply dict_lookup_set_ne.
Qed.

Lemma results_are_projected_witness :
  ∃ w',
    Monthly.make_api_request "1938-01-01" "1947-12-31"
      (Observed.fresh
         (λ _ _, Monthly.Response 200 ""
                   (Monthly.Json
                      (Py.JObj [("metadata", Py.JNum 1);
                                ("results",
                                 Py.JArr [Py.JObj [("value", Py.JNum 12);
                                                   ("source", Py.JStr "x")]])])))
         (λ _, Io.WriteOk))
    = Io.Ret
        (Py.JObj [("metadata", Py.JNum 1);
                  ("results",
                   Py.JArr [Py.JObj [("date", Py.JNull); ("datatype", Py.JNull);
                                     ("station", Py.JNull);
                                     ("attributes", Py.JNull);
                                     ("value", Py.JNum 12)]])],
         None) w'.
Proof.
  destruct (results_are_projected "1938-01-01" "1947-12-31"
              (Observed.fresh
                 (λ _ _, Monthly.Response 200 ""
                           (Monthly.Json
                              (Py.JObj [("metadata", Py.JNum 1);
                                        ("results",
                                         Py.JArr [Py.JObj [("value", Py.JNum 12);
                                                           ("source", Py.JStr "x")]])])))
                 (λ _, Io.WriteOk))
              200 ""
              [("metadata", Py.JNum 1);
               ("results", Py.JArr [Py.JObj [("value", Py.JNum 12);
                                             ("source", Py.JStr "x")]])]
              [Py.JObj [("value", Py.JNum 12); ("source", Py.JStr "x")]])
    as (adjusted & w' & E & Hlen & Hnth & _).
  - reflexivity.
  - reflexivity.
  - reflexivity.
  - repeat constructor.
  - exists w'. rewrite E.
    destruct adjusted as [|record [|record' adjusted]]; try discriminate Hlen.
    specialize (Hnth 0%nat _ eq_refl). injection Hnth as ->. reflexivity.
Defined.

(** X13. The requests of a run of fetch_monthly_data.py, window by window,
    however the run ends: every request it sends is that of a planned
    window that had no file at the start; no request is sent twice; that
    of a window whose file was there is never sent.  When the run reaches
    its report, the request of each planned window that had no file has
    been sent exactly once, and every file that was in the directory at the
    start or is not named after a planned window is as it was. *)
Theorem monthly_requests_and_files (wm : Monthly.world) :
  ∃ wm',
    Observed.final_world (Monthly.main wm) = Some wm'
    ∧ (∀ r, r ∈ Observed.new_requests wm wm' →
         ∃ entry, entry ∈ Observed.monthly_entries
                  ∧ ¬ Observed.present wm (Observed.monthly_key entry)
                  ∧ r = Observed.monthly_request entry)
    ∧ (∀ r, (Traces.occurrences r (Observed.new_requests wm wm') ≤ 1)%nat)
    ∧ (∀ entry, entry ∈ Observed.monthly_entries →
         Observed.present wm (Observed.monthly_key entry) →
         Traces.occurrences (Observed.monthly_request entry)
           (Observed.new_requests wm wm') = 0%nat)
    ∧ ∀ st, Monthly.main wm = Io.Ret st wm' →
        (∀ entry, entry ∈ Observed.monthly_entries →
           ¬ Observed.present wm (Observed.monthly_key entry) →
           Traces.occurrences (Observed.monthly_request entry)
             (Observed.new_requests wm wm') = 1%nat)
        ∧ ∀ name,
            Observed.present wm name ∨ name ∉ Observed.monthly_planned_names →
            Io.files wm' !! name = Io.files wm !! name.
Proof.
  pose proof (monthly_main_unfold wm) as Hmain.
  unfold Monthly.main_loop in Hmain. fold Observed.monthly_entries in Hmain.
  pose proof (monthly_main_ledger wm) as Hledger.
  destruct (for_each_requests Observed.monthly_request
              (λ entry, Observed.monthly_key entry ∈ Observed.monthly_found wm)
              (Monthly.main_body (Z.of_nat (length Observed.monthly_planned))
                 (Observed.monthly_found wm)) 1
              (monthly_turn_requests _ (Observed.monthly_found wm))
              Observed.monthly_entries (0, []) wm)
    as (wm' & new & Hfin & Hreq & Hnew & Hup & Hlow).
  { apply (bool_decide_unpack _). vm_compute. exact I. }
  generalize dependent (Io.for_each Observed.monthly_entries
                          (Monthly.main_body
                             (Z.of_nat (length Observed.monthly_planned))
                             (Observed.monthly_found wm)) (0, []) wm).
  intros loop Hmain Hfin Hlow.
  assert (Hlog : Observed.new_requests wm wm' = new).
  { unfold Observed.new_requests. rewrite Hreq. apply drop_app_length. }
  assert (Hmissing : ∀ r, r ∈ new →
            ∃ entry, entry ∈ Observed.monthly_entries
                     ∧ ¬ Observed.present wm (Observed.monthly_key entry)
                     ∧ r = Observed.monthly_request entry).
  { intros r (entry & Hin & Hns & E)%Hnew. exists entry. split; [exact Hin|].
    split; [|exact E]. intros Hp. apply Hns.
    apply monthly_skipped_iff_present; [apply entry_in_plan, Hin|exact Hp]. }
  exists wm'. rewrite Hlog.
  split; [rewrite Hmain; destruct loop; exact Hfin|].
  split; [exact Hmissing|]. split; [exact Hup|]. split.
  - intros entry Hin Hp. apply occurrences_none.
    intros (y & Hy & Hnp & E)%Hmissing.
    apply monthly_request_inj in E; [|exact Hin|exact Hy].
    apply Hnp. rewrite <- E. exact Hp.
  - intros st Hst. rewrite Hst in Hledger. rewrite Hmain in Hst.
    destruct loop as [r w1|e w1|]; [|discriminate|discriminate].
    injection Hst as -> ->. split.
    + intros entry Hin Hnp.
      assert (Hone : (1 ≤ Traces.occurrences (Observed.monthly_request entry) new)%nat).
      { apply (Hlow st eq_refl entry Hin). intros Hs. apply Hnp.
        apply monthly_skipped_iff_present; [apply entry_in_plan, Hin|exact Hs]. }
      specialize (Hup (Observed.monthly_request entry)). lia.
    + destruct Hledger as (fnew & _ & _ & _ & _ & _ & Hframe & _).
      intros name Hname. apply Hframe. intros entry Hin Hns ->.
      pose proof (entry_in_plan entry Hin) as Hp.
      destruct Hname as [Hpres|Hnot]; [|exact (Hnot Hp)].
      apply Hns, monthly_skipped_iff_present; assumption.
Qed.

Section MonthlyTurns.
Import Py Io Monthly Observed Traces.

(** A turn whose answer carries a list of objects under [results]: what
    goes to disk is the body with its records projected. *)
Lemma monthly_turn_with_results_gen n ex entry successful failed (w : world)
    status_code str_http_error fields items :
  monthly_key entry ∉ ex →
  net w (length (requests w)) (monthly_request entry)
  = Response status_code str_http_error (Json (JObj fields)) →
  is_error_status status_code = false →
  dict_lookup "results" fields = Some (JArr items) →
  Forall (λ item, is_object item = true) items →
  ∃ adjusted w',
    adjust_items items = inr adjusted
    ∧ main_body n ex entry (successful, failed) w
      = Ret (match disk w (length (writes w)) with
             | WriteOk => (successful + 1, failed)
             | WriteFails _ => (successful, failed ++ [monthly_key entry])
             end) w'
    ∧ requests w' = requests w ++ [monthly_request entry]
    ∧ writes w' = writes w ++ [monthly_key entry]
    ∧ slept w' = slept w ++ (if entry.1 <? n then [2] else [])
    ∧ files w'
      = match disk w (length (writes w)) with
        | WriteOk =>
            <[monthly_key entry
                := Written (JObj (dict_set "results" (JArr adjusted) fields))]>
              (files w)
        | WriteFails true => <[monthly_key entry := Partial]> (files w)
        | WriteFails false => files w
        end.
Proof.
  intros Hi Enet Hok Hres Hobj. destruct entry as [i range_info].
  destruct (adjust_items_objects items Hobj) as (adjusted & E & _).
  exists adjusted. unfold main_body, monthly_key. cbn [fst snd].
  unfold monthly_key in Hi. cbn [snd] in Hi.
  rewrite bool_decide_false by exact Hi.
  unfold mbind at 1, M_bind, bind. unfold make_api_request.
  unfold monthly_request in Enet. simpl in Enet.
  run_step. rewrite Enet, Hok. simpl. rewrite Hres. simpl. rewrite E. simpl.
  pose proof (record_count_normalized adjusted fields) as Hcount.
  pose proof (dict_set_not_nil "results" (JArr adjusted) fields) as Hne.
  destruct (dict_set "results" (JArr adjusted) fields) as [|field rest] eqn:Eset;
    [done|].
  unfold save_data, write_file. run_step.
  destruct (disk w (length (writes w))) as [|[|]]; cbn -[record_count];
    rewrite ?Hcount; simpl;
    destruct (i <? n); simpl;
    eexists; (split; [reflexivity|]); (split; [reflexivity|]);
    simpl; rewrite ?app_nil_r; by repeat split.
Qed.

End MonthlyTurns.

(** X14. A turn of fetch_monthly_data.py whose answer is a JSON object
    with a list of objects under [results]: one request, one write, no
    retry; if the write goes through the file holds the body with its
    records projected and the window is counted, otherwise the file name
    joins the failed list (with or without an incomplete file left behind);
    and the pause of two seconds follows unless the window is the last
    one. *)
Theorem monthly_turn_with_results
    (n successful : Z) (ex : list string) (entry : Z * Monthly.range_info)
    (failed : list string) (w : Monthly.world)
    (status_code : Z) (str_http_error : string)
    (fields : list (string * Py.json)) (items : list Py.json) :
  Observed.monthly_key entry ∉ ex →
  Io.net w (length (Io.requests w)) (Observed.monthly_request entry)
  = Monthly.Response status_code str_http_error (Monthly.Json (Py.JObj fields)) →
  Monthly.is_error_status status_code = false →
  Py.dict_lookup "results" fields = Some (Py.JArr items) →
  Forall (λ item, Traces.is_object item = true) items →
  ∃ adjusted w',
    Monthly.adjust_items items = inr adjusted
    ∧ Monthly.main_body n ex entry (successful, failed) w
      = Io.Ret (match Io.disk w (length (Io.writes w)) with
                | Io.WriteOk => (successful + 1, failed)
                | Io.WriteFails _ =>
                    (successful, failed ++ [Observed.monthly_key entry])
                end) w'
    ∧ Io.requests w' = Io.requests w ++ [Observed.monthly_request entry]
    ∧ Io.writes w' = Io.writes w ++ [Observed.monthly_key entry]
    ∧ Io.slept w' = Io.slept w ++ (if entry.1 <? n then [2] else [])
    ∧ Io.files w'
      = match Io.disk w (length (Io.writes w)) with
        | Io.WriteOk =>
            <[Observed.monthly_key entry
                := Io.Written
                     (Py.JObj (Py.dict_set "results" (Py.JArr adjusted) fields))]>
              (Io.files w)
        | Io.WriteFails true =>
            <[Observed.monthly_key entry := Io.Partial]> (Io.files w)
        | Io.WriteFails false => Io.files w
        end.
Proof. apply monthly_turn_with_results_gen. Qed.

Lemma monthly_turn_with_results_witness :
  ∃ w',
    Monthly.main_body 9 [] (9, Observed.year_window 2018 10 2018) (8, [])
      (Observed.fresh
         (λ _ _, Monthly.Response 200 ""
                   (Monthly.Json (Py.JObj [("results", Py.JArr [])])))
         (λ _, Io.WriteFails false))
    = Io.Ret (8, ["FIPS10003_avg_2018_to_2018.json"]) w'
    ∧ Io.slept w' = []
    ∧ Io.files w' = ∅.
Proof.
  destruct (monthly_turn_with_results 9 8 []
              (9, Observed.year_window 2018 10 2018) []
              (Observed.fresh
                 (λ _ _, Monthly.Response 200 ""
                           (Monthly.Json (Py.JObj [("results", Py.JArr [])])))
                 (λ _, Io.WriteFails false))
              200 "" [("results", Py.JArr [])] [])
    as (adjusted & w' & _ & E & _ & _ & Hsl & Hfiles).
  - intros H. by apply elem_of_nil in H.
  - reflexivity.
  - reflexivity.
  - reflexivity.
  - constructor.
  - exists w'. split; [exact E|]. split; [exact Hsl|exact Hfiles].
Defined.

(** * The report of a run *)

(** ** What stands behind an entry of the failed list *)

Section FailureCauses.
Import Py Io Locations Observed Traces.

(** A cause found at the end of a turn is still one when the run has gone
    on. *)
Lemma failure_cause_later i msg (wi w1 w' : world) :
  (∃ sent, requests w' = requests w1 ++ sent) →
  (∃ opened, writes w' = writes w1 ++ opened) →
  failure_cause i msg wi w1 → failure_cause i msg wi w'.
Proof.
  intros [sent Hsent] [opened Hopened] (data & error & w2 & E & [later Hreq] & Hwhy).
  exists data, error, w2. split; [exact E|]. split.
  { exists (later ++ sent). rewrite Hsent, Hreq. by rewrite <- app_assoc. }
  destruct error as [error_msg|]; [exact Hwhy|].
  destruct (has_results data); [|exact Hwhy].
  destruct Hwhy as (Hmsg & Hdisk & [later' Hwr]).
  split; [exact Hmsg|]. split; [exact Hdisk|].
  exists (later' ++ opened). rewrite Hopened, Hwr. by rewrite <- app_assoc.
Qed.

(** One turn: what it does to the logs, and why it enters the chunk in the
    failed list when it does. *)
Lemma locations_turn_cause n ex i successful failed (w : world) st' w' :
  main_body n ex i (successful, failed) w = Ret st' w' →
  (net w' = net w ∧ disk w' = disk w
   ∧ (∃ k, requests w' = requests w ++ replicate k (chunk_request i))
   ∧ (∃ wrote : bool,
        writes w' = writes w ++ (if wrote then [file_name i] else [])))
  ∧ (st'.2 = failed
     ∨ ∃ msg, st'.2 = failed ++ [(i, msg)] ∧ failure_cause i msg w w').
Proof.
  unfold main_body. destruct (bool_decide (i ∈ ex)).
  { intros [= <- <-]. split; [|by left]. split; [reflexivity|].
    split; [reflexivity|].
    split; [exists 0%nat|exists false]; simpl; by rewrite app_nil_r. }
  destruct (executor_outcome_shape (chunk_offset LIMIT i) LIMIT call_depth 0 w)
    as (data & error & w1 & k & E & Hreq & Hshape); [unfold call_depth; lia|].
  destruct (make_api_request_rec_returns (chunk_offset LIMIT i) LIMIT call_depth 0 w)
    as (r2 & w2 & k2 & E2 & _ & _ & Hs); [unfold call_depth; lia|].
  rewrite E in E2. injection E2 as <- <-.
  destruct Hs as (Hnet & Hdisk & Hwrites & Hfiles).
  assert (Hcall : make_api_request (chunk_offset LIMIT i) LIMIT 0 w
                  = Ret (data, error) w1) by exact E.
  assert (Hfirst : ∃ later, requests w1 = requests w ++ chunk_request i :: later).
  { exists (replicate k (chunk_request i)). exact Hreq. }
  assert (Hsent : ∃ k, requests w1 = requests w ++ replicate k (chunk_request i)).
  { exists (S k). exact Hreq. }
  unfold mbind at 1, M_bind, bind.
  fold (make_api_request (chunk_offset LIMIT i) LIMIT 0).
  rewrite Hcall.
  destruct error as [error_msg|].
  - destruct Hshape as [-> Hmsg].
    unfold save_to_file, write_file. run_step.
    destruct (String.eqb_spec error_msg ""); [done|].
    destruct (i <? n - 1); simpl; intros [= <- <-]; simpl;
      (split;
       [split; [exact Hnet|]; split; [exact Hdisk|]; split; [exact Hsent|];
        exists false; rewrite app_nil_r; exact Hwrites
       |right; exists error_msg; split; [reflexivity|];
        exists JNull, (Some error_msg), w1; split; [exact Hcall|];
        split; [exact Hfirst|reflexivity]]).
  - unfold save_to_file, write_file. run_step. unfold has_results.
    destruct (truthy data) eqn:Etruthy; simpl;
      [destruct (contains "results" data) as [e|[|]] eqn:Econtains; simpl|];
      try destruct (disk w1 (length (writes w1))) as [|[|]] eqn:Ewrite; simpl;
      try destruct (getitem data "results") as [e|results]; simpl;
      try destruct (len results) as [e|count]; simpl;
      destruct (i <? n - 1); simpl; intros [= <- <-]; simpl;
      (split;
       [split; [exact Hnet|]; split; [exact Hdisk|]; split; [exact Hsent|];
        first [ exists false; rewrite app_nil_r; exact Hwrites
              | exists true; rewrite Hwrites; reflexivity ]
       |first
          [ by left
          | right; eexists; split; [reflexivity|];
            exists data, None, w1; split; [exact Hcall|];
            split; [exact Hfirst|];
            unfold has_results; rewrite Etruthy, ?Econtains; simpl;
            first [ reflexivity
                  | split; [reflexivity|]; split; [by eexists|];
                    exists []; reflexivity ] ]]).
Qed.

(** A loop of turns over distinct chunks: every entry it adds to the failed
    list has its cause. *)
Lemma locations_loop_causes n ex (l : list Z) st (w : world) st' w' :
  NoDup l →
  for_each l (main_body n ex) st w = Ret st' w' →
  (net w' = net w ∧ disk w' = disk w
   ∧ (∃ new, requests w' = requests w ++ new
             ∧ ∀ r, r ∈ new → ∃ j, j ∈ l ∧ r = chunk_request j)
   ∧ (∃ opened, writes w' = writes w ++ opened
                ∧ ∀ name, name ∈ opened → ∃ j, j ∈ l ∧ name = file_name j))
  ∧ ∀ i msg, (i, msg) ∈ st'.2 →
      (i, msg) ∈ st.2
      ∨ (i ∈ l ∧ ∃ wi, turn_start i w wi ∧ failure_cause i msg wi w').
Proof.
  revert st w. induction l as [|j l IH]; intros [successful failed] w Hnd;
    cbn [for_each].
  { intros [= <- <-]. split; [|intros i msg Hin; by left].
    split; [reflexivity|]. split; [reflexivity|].
    split; exists []; (split; [by rewrite app_nil_r|]);
      intros x Hx; by apply elem_of_nil in Hx. }
  apply NoDup_cons in Hnd as [Hj Hnd]. unfold bind.
  destruct (main_body n ex j (successful, failed) w) as [st1 w1|e w1|] eqn:E;
    [|discriminate|discriminate].
  intros Hloop.
  destruct (locations_turn_cause _ _ _ _ _ _ _ _ E)
    as [(Hnet1 & Hdisk1 & [k Hreq1] & [wrote Hwr1]) Hentry].
  destruct (IH st1 w1 Hnd Hloop)
    as [(Hnet & Hdisk & (new & Hreq & Hnew) & (opened & Hwr & Hopened)) Hall].
  split.
  { split; [by rewrite Hnet, Hnet1|]. split; [by rewrite Hdisk, Hdisk1|]. split.
    - exists (replicate k (chunk_request j) ++ new).
      split; [rewrite Hreq, Hreq1; by rewrite <- app_assoc|].
      intros r [[-> _]%elem_of_replicate|Hr]%elem_of_app.
      + exists j. split; [rewrite elem_of_cons; by left|reflexivity].
      + destruct (Hnew r Hr) as (x & Hx & ->). exists x.
        split; [rewrite elem_of_cons; by right|reflexivity].
    - exists ((if wrote then [file_name j] else []) ++ opened).
      split; [rewrite Hwr, Hwr1; by rewrite <- app_assoc|].
      intros name [Hname|Hname]%elem_of_app.
      + destruct wrote; [|by apply elem_of_nil in Hname].
        apply list_elem_of_singleton in Hname as ->. exists j.
        split; [rewrite elem_of_cons; by left|reflexivity].
      + destruct (Hopened name Hname) as (x & Hx & ->). exists x.
        split; [rewrite elem_of_cons; by right|reflexivity]. }
  intros i msg Hin. cbn [snd].
  destruct (Hall i msg Hin) as [Hin1|(Hi & wi & Hstart & Hwhy)].
  - destruct Hentry as [E1|(msg1 & E1 & Hwhy)]; rewrite E1 in Hin1;
      [by left|].
    apply elem_of_app in Hin1 as [Hin1|Hin1]; [by left|].
    apply list_elem_of_singleton in Hin1 as [= -> ->]. right.
    split; [rewrite elem_of_cons; by left|]. exists w. split.
    + split; [reflexivity|]. split; [reflexivity|].
      split; exists []; (split; [by rewrite app_nil_r|]);
        intros Hx; by apply elem_of_nil in Hx.
    + apply (failure_cause_later j msg1 w w1 w'); [by exists new|by exists opened|].
      exact Hwhy.
  - right. split; [rewrite elem_of_cons; by right|]. exists wi.
    split; [|exact Hwhy].
    assert (Hne : i ≠ j) by (intros ->; exact (Hj Hi)).
    destruct Hstart as (Hneti & Hdiski & (sent & Hsent & Hfresh)
                        & (opened' & Hopened' & Hfresh')).
    split; [by rewrite Hneti, Hnet1|]. split; [by rewrite Hdiski, Hdisk1|]. split.
    + exists (replicate k (chunk_request j) ++ sent).
      split; [rewrite Hsent, Hreq1; by rewrite <- app_assoc|].
      intros [[E' _]%elem_of_replicate|Hs]%elem_of_app; [|exact (Hfresh Hs)].
      apply chunk_request_inj in E'. exact (Hne E').
    + exists ((if wrote then [file_name j] else []) ++ opened').
      split; [rewrite Hopened', Hwr1; by rewrite <- app_assoc|].
      intros [Hname|Hname]%elem_of_app; [|exact (Hfresh' Hname)].
      destruct wrote; [|by apply elem_of_nil in Hname].
      apply list_elem_of_singleton, file_name_inj in Hname. exact (Hne Hname).
Qed.

(** The failed list of a whole run, entry by entry. *)
Lemma locations_main_causes (w : world) st w' i msg :
  main w = Ret st w' →
  (i, msg) ∈ st.2 →
  ∃ wi, turn_start i w wi ∧ failure_cause i msg wi w'.
Proof.
  rewrite main_unfold. unfold main_loop.
  destruct (for_each (range 39) (main_body 39 (found_on_disk w)) (0, []) w)
    as [r w1|e w1|] eqn:Hloop; [|discriminate|discriminate].
  intros [= -> ->] Hin.
  destruct (locations_loop_causes _ _ _ _ _ _ _ (NoDup_seqZ _ _) Hloop)
    as [_ Hall].
  destruct (Hall i msg Hin) as [Hnil|(_ & Hwhy)]; [|exact Hwhy].
  by apply elem_of_nil in Hnil.
Qed.

End FailureCauses.
(** C8, as the code has it. When a run reaches its report, the failed list
    names each chunk at most once, only planned chunks, and none that was
    found on disk at the start or has a complete file at the end; every
    other planned chunk was found at the start or has a complete file at
    the end; and the success counter is the number of planned chunks
    outside the failed list.  This holds for make_requests.py (chunks by
    index) and for fetch_monthly_data.py (windows by file name).  The
    error detail is kept by make_requests.py only: each of its entries
    [(i, msg)] carries the error that the executor handed back for chunk
    [i], called in the world in which the turn of the chunk started, or
    ["Unknown error"] when it handed back no error and a body without
    [results], or ["File save error"] when the body had [results] and the
    write that followed failed.  An entry of fetch_monthly_data.py is the
    file name alone. *)
Theorem run_report_partition
    (w w' : Locations.world) (st : Locations.report)
    (wm wm' : Monthly.world) (stm : Monthly.report) :
  Locations.main w = Io.Ret st w' →
  Monthly.main wm = Io.Ret stm wm' →
  (let completed i :=
     Observed.present w (Locations.file_name i)
     ∨ Observed.persisted w' (Locations.file_name i) in
   NoDup st.2.*1
   ∧ (∀ i, i ∈ st.2.*1 → i ∈ Observed.planned ∧ ¬ completed i)
   ∧ (∀ i, i ∈ Observed.planned → i ∉ st.2.*1 → completed i)
   ∧ st.1 = Z.of_nat (length (filter (λ i, i ∉ st.2.*1) Observed.planned))
   ∧ st.1 = Z.of_nat (length Observed.planned) - Z.of_nat (length st.2)
   ∧ (∀ i msg, (i, msg) ∈ st.2 →
        ∃ wi, Traces.turn_start i w wi ∧ Traces.failure_cause i msg wi w'))
  ∧ (let completed name :=
       Observed.present wm name ∨ Observed.persisted wm' name in
     NoDup stm.2
     ∧ (∀ name, name ∈ stm.2 →
          name ∈ Observed.monthly_planned_names ∧ ¬ completed name)
     ∧ (∀ name, name ∈ Observed.monthly_planned_names → name ∉ stm.2 →
          completed name)
     ∧ stm.1 = Z.of_nat (length (filter (λ name, name ∉ stm.2)
                                   Observed.monthly_planned_names))
     ∧ stm.1 = Z.of_nat (length Observed.monthly_planned_names)
               - Z.of_nat (length stm.2)).
Proof.
  intros Hmain Hmainm. split.
  - destruct (locations_run_facts w st w' Hmain)
      as (Hnd & Hfailed & Hdone & Hcount & _ & _).
    intros completed. split; [exact Hnd|].
    split; [|split; [exact Hdone|split; [|split; [lia|]]]].
    + intros i Hi. destruct (Hfailed i Hi) as (Hp & Hnp & Hnw).
      split; [exact Hp|]. intros [H|H]; [exact (Hnp H)|exact (Hnw H)].
    + pose proof (length_filter_not_in Observed.planned st.2.*1
                    (NoDup_seqZ _ _) Hnd (λ i Hi, proj1 (Hfailed i Hi))) as Hlen.
      rewrite length_fmap in Hlen. lia.
    + intros i msg Hin. exact (locations_main_causes w st w' i msg Hmain Hin).
  - destruct (monthly_run_facts wm stm wm' Hmainm)
      as (Hnd & Hfailed & Hdone & Hcount & _ & _).
    intros completed. split; [exact Hnd|].
    split; [|split; [exact Hdone|split; [|lia]]].
    + intros name Hi. destruct (Hfailed name Hi) as (Hp & Hnp & Hnw).
      split; [exact Hp|]. intros [H|H]; [exact (Hnp H)|exact (Hnw H)].
    + pose proof (length_filter_not_in Observed.monthly_planned_names stm.2
                    NoDup_planned_names Hnd (λ i Hi, proj1 (Hfailed i Hi))) as Hlen.
      lia.
Qed.

Lemma run_report_partition_witness :
  let w : Locations.world :=
    Observed.fresh
      (λ k _, if (k <? 3)%nat then Locations.HTTPError 404 "Not Found"
              else Locations.Ok
                     (Locations.Decoded (Py.JObj [("results", Py.JArr [])])))
      (λ _, Io.WriteOk) in
  let wm : Monthly.world :=
    Observed.fresh (λ _ _, Monthly.RequestException "timed out")
      (λ _, Io.WriteOk) in
  let w' := default w (Observed.final_world (Locations.main w)) in
  let wm' := default wm (Observed.final_world (Monthly.main wm)) in
  let failed := [(0, "HTTP Error 404: Not Found");
                 (1, "HTTP Error 404: Not Found");
                 (2, "HTTP Error 404: Not Found")] in
  Locations.main w = Io.Ret (36, failed) w'
  ∧ Monthly.main wm = Io.Ret (0, Observed.monthly_planned_names) wm'
  ∧ NoDup failed.*1
  ∧ (∃ wi, Traces.turn_start 1 w wi
           ∧ Traces.failure_cause 1 "HTTP Error 404: Not Found" wi w')
  ∧ NoDup Observed.monthly_planned_names.
Proof.
  intros w wm w' wm' failed.
  assert (E : Locations.main w = Io.Ret (36, failed) w')
    by (vm_compute; reflexivity).
  assert (Em : Monthly.main wm = Io.Ret (0, Observed.monthly_planned_names) wm')
    by (vm_compute; reflexivity).
  destruct (run_report_partition
              w w' (36, failed) wm wm' (0, Observed.monthly_planned_names) E Em)
    as [(Hnd & _ & _ & _ & _ & Hwhy) (Hndm & _)].
  split; [exact E|]. split; [exact Em|]. split; [exact Hnd|].
  split; [|exact Hndm].
  apply Hwhy. cbn [snd]. subst failed. rewrite !elem_of_cons.
  right. left. reflexivity.
Defined.

(** C8 fails as written for fetch_monthly_data.py: its failed list holds
    file names and nothing else.  A run in which every request times out
    and a run in which every request is answered with a 404 hand back
    different errors from the executor, window for window, and end with
    the very same report. *)
Lemma monthly_report_drops_error_detail :
  let wa : Monthly.world :=
    Observed.fresh (λ _ _, Monthly.RequestException "timed out")
      (λ _, Io.WriteOk) in
  let wb : Monthly.world :=
    Observed.fresh
      (λ _ _, Monthly.Response 404 "404 Client Error: Not Found" Monthly.Empty)
      (λ _, Io.WriteOk) in
  Observed.returned (Monthly.make_api_request "1938-01-01" "1947-12-31" wa)
  = Some (Py.JNull, Some "Request error: timed out")
  ∧ Observed.returned (Monthly.make_api_request "1938-01-01" "1947-12-31" wb)
    = Some (Py.JNull, Some "Request error: 404 Client Error: Not Found")
  ∧ Observed.returned (Monthly.main wa)
    = Some (0, Observed.monthly_planned_names)
  ∧ Observed.returned (Monthly.main wb)
    = Some (0, Observed.monthly_planned_names)
  ∧ head Observed.monthly_planned_names
    = Some "FIPS10003_avg_1938_to_1947.json".
Proof.
  intros wa wb. repeat split; vm_compute; reflexivity.
Qed.
